(** * BLE-controlled Pololu 3pi+ robot: robot-control node and wireless bridge

    A shallow embedding of [code/main_robot.py] (robot-control node) and
    [code/main_pico.py] (wireless-bridge node), and the properties of the
    command protocol, the line-following law, the collision interlock, the
    calibration sequence and the serial relay that are proved about them.

    Both programs run on MicroPython.  A [str] is kept by that runtime as
    its UTF-8 bytes, so text and byte strings are both modelled by [string]
    (a sequence of 8-bit characters); [bytes.decode()] is the runtime's
    UTF-8 validity check.  Indicator effects (display, LEDs, buzzer, console
    prints) and delays carry no state that the program reads back and are
    left out of the model. *)

From Stdlib Require Import ZArith Lia Ascii DecimalString.
From stdpp Require Import base option list strings gmap.

Local Open Scope Z_scope.

(** ** Python values and built-ins used by both nodes *)

Module Py.

Inductive exn :=
| IndexError
| TypeError (msg : string)
| ValueError
| UnicodeError
| ZeroDivisionError
| DriverError (msg : string).

(** [str(e)] *)
Definition str_exn (e : exn) : string :=
  match e with
  | IndexError => "list index out of range"
  | TypeError msg => msg
  | ValueError => "invalid syntax for integer"
  | UnicodeError => ""
  | ZeroDivisionError => "divide by zero"
  | DriverError msg => msg
  end.

Inductive result (A : Type) :=
| Ok (a : A)
| Raise (e : exn).
Arguments Ok {A} a.
Arguments Raise {A} e.

Definition is_ok {A} (r : result A) : bool :=
  match r with Ok _ => true | Raise _ => false end.

(** [str(n)] for an integer, [str(b)] for a boolean *)
Definition str_int (n : Z) : string := NilZero.string_of_int (Z.to_int n).
Definition str_bool (b : bool) : string := if b then "True" else "False".

(** [s.lstrip()], [s.rstrip()], [s.strip()]: the runtime strips the six
    ASCII white-space characters (tab, LF, VT, FF, CR, space). *)
Fixpoint lstrip (s : string) : string :=
  match s with
  | String c s' => if Ascii.is_space c then lstrip s' else s
  | EmptyString => EmptyString
  end.

Fixpoint rstrip (s : string) : string :=
  match s with
  | String c s' =>
      match rstrip s' with
      | EmptyString => if Ascii.is_space c then EmptyString else String c EmptyString
      | r => String c r
      end
  | EmptyString => EmptyString
  end.

Definition strip (s : string) : string := rstrip (lstrip s).

(** [s.upper()]: ASCII letters only *)
Definition toupper (c : Ascii.ascii) : Ascii.ascii :=
  let n := Ascii.N_of_ascii c in
  if ((97 <=? n) && (n <=? 122))%N then Ascii.ascii_of_N (n - 32) else c.

Fixpoint upper (s : string) : string :=
  match s with
  | String c s' => String (toupper c) (upper s')
  | EmptyString => EmptyString
  end.

(** [s.split()]: maximal runs of non-white-space characters *)
Definition split (s : string) : list string := String.words s.

(** [s.split(sep)] for a one-character separator: never the empty list *)
Fixpoint split_on (sep : Ascii.ascii) (s : string) : list string :=
  match s with
  | String c s' =>
      if Ascii.eqb c sep then EmptyString :: split_on sep s'
      else match split_on sep s' with
           | t :: ts => String c t :: ts
           | [] => [String c EmptyString]
           end
  | EmptyString => [EmptyString]
  end.

(** [c in s] *)
Fixpoint contains (c : Ascii.ascii) (s : string) : bool :=
  match s with
  | String c' s' => Ascii.eqb c' c || contains c s'
  | EmptyString => false
  end.

(** truth value of a string: non-empty *)
Definition truthy (s : string) : bool :=
  match s with EmptyString => false | String _ _ => true end.

(** [s.endswith("\n")] *)
Fixpoint endswith_char (c : Ascii.ascii) (s : string) : bool :=
  match s with
  | String c' EmptyString => Ascii.eqb c' c
  | String _ s' => endswith_char c s'
  | EmptyString => false
  end.

Definition LF : Ascii.ascii := Ascii.ascii_of_N 10.
Definition newline : string := String LF EmptyString.

(** [int(s)], base 10, as the runtime of the robot (MicroPython) parses
    it: white space around the text is skipped; then comes an optional sign;
    then decimal digits, among which every underscore is skipped (so
    [int("0_2")] is 2; the runtime does not ask, as CPython does, that an
    underscore stand between two digits); at least one character must follow
    the sign.  Everything else is a [ValueError].  Integers are unbounded. *)
Fixpoint digits_value (acc : Z) (s : string) : option Z :=
  match s with
  | String c s' =>
      if Ascii.eqb c "_" then digits_value acc s'
      else
        match Ascii.is_nat c with
        | Some d => digits_value (10 * acc + Z.of_nat d) s'
        | None => None
        end
  | EmptyString => Some acc
  end.

Definition int (s : string) : result Z :=
  let unsigned (ds : string) :=
    match ds with
    | EmptyString => None
    | String _ _ => digits_value 0 ds
    end in
  let parsed :=
    match strip s with
    | String "-"%char ds => Z.opp <$> unsigned ds
    | String "+"%char ds => unsigned ds
    | ds => unsigned ds
    end in
  match parsed with
  | Some n => Ok n
  | None => Raise ValueError
  end.

(** [bytes.decode()]: the runtime's check that the bytes are well-formed
    UTF-8 ([need] counts the continuation bytes still expected), after which
    the same bytes are the text. *)
Definition utf8_step (need : N) (c : Ascii.ascii) : option N :=
  let b := Ascii.N_of_ascii c in
  match need with
  | N0 =>
      if (b <? 128)%N then Some 0%N
      else if (b <? 192)%N then None
      else if (b <? 224)%N then Some 1%N
      else if (b <? 240)%N then Some 2%N
      else if (b <? 248)%N then Some 3%N
      else None
  | _ =>
      if ((128 <=? b) && (b <? 192))%N then Some (N.pred need) else None
  end.

Fixpoint utf8_scan (need : N) (s : string) : option N :=
  match s with
  | String c s' =>
      match utf8_step need c with
      | Some need' => utf8_scan need' s'
      | None => None
      end
  | EmptyString => Some need
  end.

Definition utf8_check (s : string) : bool :=
  match utf8_scan 0 s with
  | Some N0 => true
  | _ => false
  end.

Definition decode (data : string) : result string :=
  if utf8_check data then Ok data else Raise UnicodeError.

(** Sequencing of computations that may raise: [x ← e; k]. *)
#[export] Instance result_ret : MRet result := fun _ a => Ok a.
#[export] Instance result_bind : MBind result := fun _ _ k r =>
  match r with
  | Ok a => k a
  | Raise e => Raise e
  end.

(** [l[i]] for a non-negative index, [sum(l)], [a // b] *)
Definition getitem (l : list Z) (i : nat) : result Z :=
  match l !! i with
  | Some v => Ok v
  | None => Raise IndexError
  end.

Definition sum (l : list Z) : Z := foldr Z.add 0 l.

Definition floordiv (a b : Z) : result Z :=
  if b =? 0 then Raise ZeroDivisionError else Ok (a / b).

End Py.

Import Py.

(** ** The robot-control node, [code/main_robot.py] *)

Module RobotNode.

Inductive Mode := MODE_MANUAL | MODE_LINE_FOLLOWING | MODE_STOPPED.

#[export] Instance Mode_eq_dec : EqDecision Mode.
Proof. solve_decision. Defined.

Definition SPEED_LEVEL_1 : Z := 1000.
Definition SPEED_LEVEL_2 : Z := 1250.
Definition SPEED_LEVEL_3 : Z := 1500.

Definition calibration_speed : Z := 200.
Definition calibration_count : Z := 100.

(** The motor driver object: the program reads back the two speeds it last
    commanded ([motors._left_speed], [motors._right_speed]). *)
Record Motors := { _left_speed : Z; _right_speed : Z }.

Definition set_speeds (left right : Z) : Motors :=
  {| _left_speed := left; _right_speed := right |}.
Definition off : Motors := set_speeds 0 0.

(** The module-level variables of the program, with the motor driver. *)
Record Globals := {
  current_mode : Mode;
  line_calibrated : bool;
  current_speed : Z;
  p : Z;
  last_p : Z;
  line : list Z;
  collision_detected : bool;
  motors : Motors
}.

Definition initial : Globals :=
  {| current_mode := MODE_STOPPED; line_calibrated := false;
     current_speed := SPEED_LEVEL_1; p := 0; last_p := 0;
     line := [0; 0; 0; 0; 0]; collision_detected := false; motors := off |}.

Definition with_mode (m : Mode) (g : Globals) : Globals :=
  {| current_mode := m; line_calibrated := line_calibrated g;
     current_speed := current_speed g; p := p g; last_p := last_p g;
     line := line g; collision_detected := collision_detected g;
     motors := motors g |}.

Definition with_calibrated (b : bool) (g : Globals) : Globals :=
  {| current_mode := current_mode g; line_calibrated := b;
     current_speed := current_speed g; p := p g; last_p := last_p g;
     line := line g; collision_detected := collision_detected g;
     motors := motors g |}.

Definition with_speed (v : Z) (g : Globals) : Globals :=
  {| current_mode := current_mode g; line_calibrated := line_calibrated g;
     current_speed := v; p := p g; last_p := last_p g;
     line := line g; collision_detected := collision_detected g;
     motors := motors g |}.

Definition with_collision (b : bool) (g : Globals) : Globals :=
  {| current_mode := current_mode g; line_calibrated := line_calibrated g;
     current_speed := current_speed g; p := p g; last_p := last_p g;
     line := line g; collision_detected := b; motors := motors g |}.

Definition with_motors (m : Motors) (g : Globals) : Globals :=
  {| current_mode := current_mode g; line_calibrated := line_calibrated g;
     current_speed := current_speed g; p := p g; last_p := last_p g;
     line := line g; collision_detected := collision_detected g;
     motors := m |}.

(** What the hardware and the runtime hand to the program during one pass
    of the control loop: the bump-sensor sample, the calibrated line
    readings, the value drawn by [random.randint(80, 100)], the bytes pending
    on the serial link, and which driver calls of a calibration sweep fail
    (the sweep is the one place where the program provides for a driver
    fault; driver calls elsewhere are taken to succeed). *)
Record World := {
  left_is_pressed : bool;
  right_is_pressed : bool;
  read_calibrated : list Z;
  randint_80_100 : Z;
  uart_read : string;
  driver_fault : nat -> option string
}.

(** *** Command handlers *)

Definition handler := World -> Globals -> string * Globals.

Definition cmd_forward : handler := fun _ g =>
  if negb (collision_detected g) then
    let g := with_mode MODE_MANUAL g in
    let g := with_motors (set_speeds (current_speed g) (current_speed g)) g in
    ("MOVING:FORWARD at speed " +:+ str_int (current_speed g), g)
  else
    ("ERROR:COLLISION_DETECTED", g).

Definition cmd_backward : handler := fun _ g =>
  let g := with_mode MODE_MANUAL g in
  let g := with_motors (set_speeds (- current_speed g) (- current_speed g)) g in
  ("MOVING:BACKWARD at speed " +:+ str_int (current_speed g), g).

Definition cmd_left : handler := fun _ g =>
  let g := with_mode MODE_MANUAL g in
  let g := with_motors (set_speeds (- current_speed g) (current_speed g)) g in
  ("TURNING:LEFT at speed " +:+ str_int (current_speed g), g).

Definition cmd_right : handler := fun _ g =>
  let g := with_mode MODE_MANUAL g in
  let g := with_motors (set_speeds (current_speed g) (- current_speed g)) g in
  ("TURNING:RIGHT at speed " +:+ str_int (current_speed g), g).

Definition cmd_stop : handler := fun _ g =>
  let prev_mode := current_mode g in
  let g := with_mode MODE_STOPPED g in
  let g := with_motors off g in
  match prev_mode with
  | MODE_LINE_FOLLOWING =>
      (* after the 3 s pause *)
      let g := with_mode MODE_LINE_FOLLOWING g in
      ("STOPPED (resuming line following)", g)
  | _ => ("STOPPED", g)
  end.

(** [int] raises nothing but [ValueError], which the handler catches. *)
Definition cmd_speed (level : string) : handler := fun _ g =>
  match int level with
  | Ok level_num =>
      let chosen :=
        if level_num =? 1 then Some SPEED_LEVEL_1
        else if level_num =? 2 then Some SPEED_LEVEL_2
        else if level_num =? 3 then Some SPEED_LEVEL_3
        else None in
      match chosen with
      | Some v =>
          let g := with_speed v g in
          ("SPEED_SET:" +:+ str_int level_num +:+ " (" +:+
             str_int (current_speed g) +:+ ")", g)
      | None => ("ERROR:INVALID_SPEED_LEVEL (use 1-3)", g)
      end
  | Raise _ => ("ERROR:INVALID_SPEED_LEVEL (use 1-3)", g)
  end.

Definition cmd_status : handler := fun w g =>
  let mode_text :=
    match current_mode g with
    | MODE_MANUAL => "MANUAL"
    | MODE_LINE_FOLLOWING => "LINE_FOLLOWING"
    | MODE_STOPPED => "STOPPED"
    end in
  let status := "STATUS:OK," in
  let status := status +:+ "BATTERY:" +:+ str_int (randint_80_100 w) +:+ "%," in
  let status := status +:+ "MODE:" +:+ mode_text +:+ "," in
  let status := status +:+ "SPEED:" +:+ str_int (current_speed g) +:+ "," in
  let status := status +:+ "CALIBRATED:" +:+ str_bool (line_calibrated g) +:+ "," in
  let status := status +:+ "COLLISION:" +:+ str_bool (collision_detected g) +:+ "," in
  let status := status +:+ "LEFT_BUMP:" +:+ str_bool (left_is_pressed w) +:+ "," in
  let status := status +:+ "RIGHT_BUMP:" +:+ str_bool (right_is_pressed w) in
  (status, g).

(** *** Calibration sequence

    Calls into the motor and line-sensor drivers during the sweep are
    numbered from 0; call [k] raises when the fault table of the [World]
    holds a description at [k], and otherwise takes effect. *)
Record Hw := { hw_motors : Motors; hw_calls : nat }.

Definition driver (A : Type) : Type :=
  (nat -> option string) -> Hw -> result A * Hw.

#[export] Instance driver_ret : MRet driver := fun _ a _ hw => (Ok a, hw).
#[export] Instance driver_bind : MBind driver := fun _ _ k m faults hw =>
  match m faults hw with
  | (Ok a, hw') => k a faults hw'
  | (Raise e, hw') => (Raise e, hw')
  end.

Definition driver_call (effect : Motors -> Motors) : driver () :=
  fun faults hw =>
    match faults (hw_calls hw) with
    | Some msg =>
        (Raise (DriverError msg),
         {| hw_motors := hw_motors hw; hw_calls := S (hw_calls hw) |})
    | None =>
        (Ok (),
         {| hw_motors := effect (hw_motors hw); hw_calls := S (hw_calls hw) |})
    end.

Definition motors_set_speeds (left right : Z) : driver () :=
  driver_call (fun _ => set_speeds left right).
Definition motors_off : driver () := driver_call (fun _ => off).
Definition line_sensors_calibrate : driver () := driver_call (fun m => m).

(** [for i in range(n): body] *)
Fixpoint for_range (n : nat) (body : driver ()) : driver () :=
  match n with
  | O => mret ()
  | S n' => body;; for_range n' body
  end.

(** [range(int(a / b))] for the positive constants of the program *)
Definition range_int_div (a b : Z) : nat := Z.to_nat (Z.quot a b).

(** The body of the [try] block up to the last [motors.off()]. *)
Definition calibration_sweep : driver () :=
  motors_set_speeds calibration_speed (- calibration_speed);;
  for_range (range_int_div calibration_count 4) line_sensors_calibrate;;
  motors_off;;
  motors_set_speeds (- calibration_speed) calibration_speed;;
  for_range (range_int_div calibration_count 2) line_sensors_calibrate;;
  motors_off;;
  motors_set_speeds calibration_speed (- calibration_speed);;
  for_range (range_int_div calibration_count 4) line_sensors_calibrate;;
  motors_off.

Definition calibrate_line_sensors : handler := fun w g =>
  let g := with_mode MODE_STOPPED g in
  let g := with_motors off g in
  match calibration_sweep (driver_fault w)
          {| hw_motors := motors g; hw_calls := O |} with
  | (Ok _, hw) =>
      let g := with_motors (hw_motors hw) g in
      let g := with_calibrated true g in
      let g := with_mode MODE_LINE_FOLLOWING g in
      ("LINE_SENSORS:CALIBRATED_AND_FOLLOWING", g)
  | (Raise e, hw) =>
      let g := with_motors (hw_motors hw) g in
      let g := with_calibrated false g in
      ("ERROR:CALIBRATION_FAILED (" +:+ str_exn e +:+ ")", g)
  end.

Definition cmd_line_follow (param : string) : handler := fun w g =>
  if String.eqb (upper param) "START" then
    if line_calibrated g then
      ("LINE_FOLLOWING:STARTED", with_mode MODE_LINE_FOLLOWING g)
    else
      ("ERROR:NOT_CALIBRATED", g)
  else if String.eqb (upper param) "STOP" then
    let g := with_mode MODE_STOPPED g in
    let g := with_motors off g in
    ("LINE_FOLLOWING:STOPPED", g)
  else if String.eqb (upper param) "CALIBRATE" then
    calibrate_line_sensors w g
  else
    match current_mode g with
    | MODE_LINE_FOLLOWING => ("LINE_FOLLOWING:ACTIVE", g)
    | _ => ("LINE_FOLLOWING:INACTIVE", g)
    end.

Definition cmd_heartbeat (val : string) : handler := fun _ g =>
  ("HEARTBEAT_ACK:" +:+ val, g).

(** *** Command table and dispatch

    A value of the table is a fixed response or a function; a function takes
    no argument, one argument, or one argument with a default. *)
Inductive function :=
| Def0 (body : handler)
| Def1 (body : string -> handler)
| Def1_default (default : string) (body : string -> handler).

Inductive entry :=
| Static (response : string)
| Callable (f : function).

(** Calling a function with the given positional arguments; a call that
    does not fit the signature raises [TypeError]. *)
Definition call (f : function) (args : list string)
    (w : World) (g : Globals) : result (string * Globals) :=
  match f, args with
  | Def0 body, [] => Ok (body w g)
  | Def1 body, [a] => Ok (body a w g)
  | Def1_default d body, [] => Ok (body d w g)
  | Def1_default _ body, [a] => Ok (body a w g)
  | Def0 _, _ =>
      Raise (TypeError "function takes 0 positional arguments but 1 were given")
  | Def1 _, [] =>
      Raise (TypeError "function takes 1 positional arguments but 0 were given")
  | _, _ => Raise (TypeError "function takes 1 positional arguments")
  end.

Definition COMMANDS : gmap string entry :=
  list_to_map
    [ ("PING", Static "PONG");
      ("STATUS", Callable (Def0 cmd_status));
      ("FORWARD", Callable (Def0 cmd_forward));
      ("BACKWARD", Callable (Def0 cmd_backward));
      ("LEFT", Callable (Def0 cmd_left));
      ("RIGHT", Callable (Def0 cmd_right));
      ("STOP", Callable (Def0 cmd_stop));
      ("SPEED", Callable (Def1 cmd_speed));
      ("LINE", Callable (Def1_default "" cmd_line_follow));
      ("HEARTBEAT", Callable (Def1 cmd_heartbeat)) ].

Definition process_command (w : World) (g : Globals) (command : string)
    : result (string * Globals) :=
  let command := upper (strip command) in
  let response := "ERROR:UNKNOWN_COMMAND" in
  let parts := split command in
  match parts with
  | [] => Raise IndexError
  | base_cmd :: params =>
      match COMMANDS !! base_cmd with
      | Some (Callable f) =>
          match params with
          | param :: _ => call f [param] w g
          | [] => call f [] w g
          end
      | Some (Static fixed) => Ok (fixed, g)
      | None => Ok (response, g)
      end
  end.

(** *** Collision check *)

Definition check_collisions (w : World) (g : Globals) : bool * Globals :=
  if left_is_pressed w || right_is_pressed w then
    if negb (collision_detected g) then
      let g := with_collision true g in
      if negb (bool_decide (current_mode g = MODE_STOPPED))
         && (0 <? _left_speed (motors g)) && (0 <? _right_speed (motors g))
      then
        let g := with_motors off g in
        let g := with_mode MODE_STOPPED g in
        (true, g)
      else (false, g)
    else (false, g)
  else
    if collision_detected g then (false, with_collision false g)
    else (false, g).

(** *** Line following *)

(** The position estimate [l] of one step: [p] is the error kept from the
    step before, [line] the fresh readings. *)
Definition estimate_position (p : Z) (line : list Z) : result Z :=
  v1 ← getitem line 1;
  no_line ←
    (if v1 <? 700 then
       v2 ← getitem line 2;
       if v2 <? 700 then
         v3 ← getitem line 3;
         Ok (v3 <? 700)
       else Ok false
     else Ok false);
  if no_line : bool then
    Ok (if p <? 0 then 0 else 4000)
  else
    match
      (v1 ← getitem line 1;
       v2 ← getitem line 2;
       v3 ← getitem line 3;
       v4 ← getitem line 4;
       floordiv (1000 * v1 + 2000 * v2 + 3000 * v3 + 4000 * v4) (sum line))
    with
    | Raise ZeroDivisionError => Ok 2000
    | r => r
    end.

Definition follow_line (w : World) (g : Globals) : result Globals :=
  let line := read_calibrated w in
  l ← estimate_position (p g) line;
  let p := l - 2000 in
  let d := p - last_p g in
  let last_p := p in
  let pid := p * 15 + d * 300 in
  let min_speed := 0 in
  let max_speed := current_speed g in
  let left := Z.max min_speed (Z.min max_speed (max_speed + pid)) in
  let right := Z.max min_speed (Z.min max_speed (max_speed - pid)) in
  Ok {| current_mode := current_mode g; line_calibrated := line_calibrated g;
        current_speed := current_speed g; p := p; last_p := last_p;
        line := line; collision_detected := collision_detected g;
        motors := set_speeds left right |}.

(** *** Main program *)

(** The variables of [main] that live across passes of the loop, and the
    frames written to the serial link so far. *)
Record Loop := {
  globals : Globals;
  rx_buffer : string;
  counter : Z;
  uart_written : list string
}.

(** The [for cmd in commands[:-1]] loop: responses written, frames handed
    to [process_command], and the fault that ended the loop early, if any. *)
Record Drained := {
  dr_globals : Globals;
  dr_written : list string;
  dr_dispatched : list string;
  dr_fault : option exn
}.

Fixpoint for_commands (w : World) (g : Globals) (commands : list string)
    : Drained :=
  match commands with
  | [] =>
      {| dr_globals := g; dr_written := []; dr_dispatched := [];
         dr_fault := None |}
  | cmd :: rest =>
      if truthy (strip cmd) then
        match process_command w g (strip cmd) with
        | Ok (response, g') =>
            let r := for_commands w g' rest in
            {| dr_globals := dr_globals r;
               dr_written := (response +:+ newline) :: dr_written r;
               dr_dispatched := strip cmd :: dr_dispatched r;
               dr_fault := dr_fault r |}
        | Raise e =>
            {| dr_globals := g; dr_written := [];
               dr_dispatched := [strip cmd]; dr_fault := Some e |}
        end
      else for_commands w g rest
  end.

(** The serial block of the loop, given the bytes [data] returned by
    [uart.read()] (empty when nothing is pending): the [try] body, and the
    [except] that clears the buffer. *)
Record Received := {
  rc_globals : Globals;
  rc_buffer : string;
  rc_written : list string;
  rc_dispatched : list string;
  rc_fault : option exn
}.

Definition serial_receive (w : World) (g : Globals) (rx_buffer : string)
    (data : string) : Received :=
  if truthy data then
    match decode data with
    | Ok new_data =>
        let rx_buffer := rx_buffer +:+ new_data in
        if contains LF rx_buffer then
          let commands := split_on LF rx_buffer in
          let r := for_commands w g (removelast commands) in
          {| rc_globals := dr_globals r;
             rc_buffer :=
               match dr_fault r with
               | None => List.last commands ""
               | Some _ => ""
               end;
             rc_written := dr_written r;
             rc_dispatched := dr_dispatched r;
             rc_fault := dr_fault r |}
        else
          {| rc_globals := g; rc_buffer := rx_buffer; rc_written := [];
             rc_dispatched := []; rc_fault := None |}
    | Raise e =>
        {| rc_globals := g; rc_buffer := ""; rc_written := [];
           rc_dispatched := []; rc_fault := Some e |}
    end
  else
    {| rc_globals := g; rc_buffer := rx_buffer; rc_written := [];
       rc_dispatched := []; rc_fault := None |}.

(** The part of [main] before the loop: calibration runs unconditionally,
    then the ready message is sent. *)
Definition boot (w : World) : Loop :=
  let '(_, g) := calibrate_line_sensors w initial in
  {| globals := g; rx_buffer := ""; counter := 0;
     uart_written := ["ROBOT_READY_AND_FOLLOWING" +:+ newline] |}.

(** One pass of the [while True] body. *)
Definition loop_iteration (w : World) (s : Loop) : result Loop :=
  let '(_, g) := check_collisions w (globals s) in
  let r := serial_receive w g (rx_buffer s) (uart_read w) in
  let g := rc_globals r in
  let written := uart_written s ++ rc_written r in
  g ←
    (if bool_decide (current_mode g = MODE_LINE_FOLLOWING)
        && line_calibrated g && negb (collision_detected g)
     then follow_line w g else Ok g);
  let counter := counter s + 1 in
  if 600 <=? counter then
    let '(status, g) := cmd_status w g in
    Ok {| globals := g; rx_buffer := rc_buffer r; counter := 0;
          uart_written := written ++ ["AUTO:" +:+ status +:+ newline] |}
  else
    Ok {| globals := g; rx_buffer := rc_buffer r; counter := counter;
          uart_written := written |}.

End RobotNode.

(** ** The wireless-bridge node, [code/main_pico.py] *)

Module BridgeNode.

(** The bridge object: its connection set, and what the radio stack holds
    on its behalf (the value of the read/notify characteristic at
    [_handle_tx], and the notifications sent so far, oldest first). *)
Record BLEUARTBridge := {
  _connections : gset Z;
  tx_value : string;
  notified : list (Z * string)
}.

(** The module-level variables, and the frames written to the serial link. *)
Record Globals := {
  is_connected : bool;
  last_command : string;
  last_response : string;
  ble_service : option BLEUARTBridge;
  uart_written : list string
}.

Definition with_service (b : BLEUARTBridge) (g : Globals) : Globals :=
  {| is_connected := is_connected g; last_command := last_command g;
     last_response := last_response g; ble_service := Some b;
     uart_written := uart_written g |}.

(** [BLEUARTBridge()] *)
Definition new_bridge : BLEUARTBridge :=
  {| _connections := ∅; tx_value := "Robot Bridge Ready"; notified := [] |}.

(** The globals once [main] has built the bridge and sent its first ping. *)
Definition initial : Globals :=
  {| is_connected := false;
     last_command := "No commands received yet";
     last_response := "No response from robot yet";
     ble_service := Some new_bridge;
     uart_written := ["PING" +:+ newline] |}.

Definition _notify (self : BLEUARTBridge) (data : string) : BLEUARTBridge :=
  {| _connections := _connections self; tx_value := tx_value self;
     notified :=
       notified self
         ++ ((λ conn_handle, (conn_handle, data)) <$> elements (_connections self)) |}.

Definition update_tx (self : BLEUARTBridge) (new_value : string)
    : BLEUARTBridge :=
  let self :=
    {| _connections := _connections self; tx_value := new_value;
       notified := notified self |} in
  _notify self new_value.

Definition _send_to_robot (command : string) (g : Globals) : Globals :=
  let command :=
    if negb (endswith_char LF command) then command +:+ newline else command in
  let ack := "Command '" +:+ strip command +:+ "' sent to robot" in
  {| is_connected := is_connected g; last_command := last_command g;
     last_response := last_response g;
     ble_service := (λ self, update_tx self ack) <$> ble_service g;
     uart_written := uart_written g ++ [command] |}.

Inductive value_handle := _handle_tx | _handle_rx.

(** Radio events; a write event comes with the bytes the stack stored in
    the written characteristic. *)
Inductive event :=
| _IRQ_CENTRAL_CONNECT (conn_handle : Z)
| _IRQ_CENTRAL_DISCONNECT (conn_handle : Z)
| _IRQ_GATTS_WRITE (conn_handle : Z) (h : value_handle) (stored : string)
| _IRQ_GATTS_READ_REQUEST (conn_handle : Z) (h : value_handle).

(** The event callback of the bridge object held in [ble_service]; a fault
    inside the callback ends it where it stands. *)
Definition _irq (ev : event) (g : Globals) : Globals :=
  match ble_service g with
  | None => g
  | Some self =>
      match ev with
      | _IRQ_CENTRAL_CONNECT conn_handle =>
          {| is_connected := true; last_command := last_command g;
             last_response := last_response g;
             ble_service :=
               Some {| _connections := {[conn_handle]} ∪ _connections self;
                       tx_value := tx_value self; notified := notified self |};
             uart_written := uart_written g |}
      | _IRQ_CENTRAL_DISCONNECT conn_handle =>
          {| is_connected := false; last_command := last_command g;
             last_response := last_response g;
             ble_service :=
               Some {| _connections := _connections self ∖ {[conn_handle]};
                       tx_value := tx_value self; notified := notified self |};
             uart_written := uart_written g |}
      | _IRQ_GATTS_WRITE _ _handle_rx stored =>
          match decode stored with
          | Ok message =>
              _send_to_robot message
                {| is_connected := is_connected g; last_command := message;
                   last_response := last_response g;
                   ble_service := ble_service g;
                   uart_written := uart_written g |}
          | Raise _ => g
          end
      | _ => g
      end
  end.

(** [check_for_robot_response()], given the bytes pending on the serial
    link (empty when [uart.any()] is zero). *)
Definition check_for_robot_response (pending : string) (g : Globals)
    : bool * Globals :=
  if truthy pending then
    match decode pending with
    | Ok text =>
        let response_str := strip text in
        let service :=
          match ble_service g with
          | Some self =>
              if is_connected g then
                let ble_message := "Robot: " +:+ response_str in
                Some (update_tx self ble_message)
              else Some self
          | None => None
          end in
        (true,
         {| is_connected := is_connected g; last_command := last_command g;
            last_response := response_str; ble_service := service;
            uart_written := uart_written g |})
    | Raise _ => (false, g)
    end
  else (false, g).

End BridgeNode.

(** ** Vocabulary of the statements about the robot node *)

Module RobotSpec.

Import RobotNode.

(** The tokens [process_command] works on. *)
Definition tokens (command : string) : list string :=
  split (upper (strip command)).

(** A function accepts a call with that many positional arguments. *)
Definition accepts (f : function) (nargs : nat) : bool :=
  match f, nargs with
  | Def0 _, O => true
  | Def1 _, S O => true
  | Def1_default _ _, (O | S O) => true
  | _, _ => false
  end.

(** A token list that [process_command] answers: it has a command name,
    and when the name stands for a function, the presence of a parameter
    fits the signature of that function. *)
Definition dispatchable (parts : list string) : bool :=
  match parts with
  | [] => false
  | base_cmd :: params =>
      match COMMANDS !! base_cmd with
      | Some (Callable f) => accepts f (length (take 1 params))
      | _ => true
      end
  end.

(** The same, spelt out name by name from the signatures of the handlers:
    STATUS, FORWARD, BACKWARD, LEFT, RIGHT and STOP take no parameter, SPEED
    and HEARTBEAT need one; LINE takes one or none, and PING and every
    unknown name are answered whatever follows. *)
Definition takes_no_parameter : list string :=
  ["STATUS"; "FORWARD"; "BACKWARD"; "LEFT"; "RIGHT"; "STOP"].

Definition needs_parameter : list string := ["SPEED"; "HEARTBEAT"].

Definition answered (parts : list string) : bool :=
  match parts with
  | [] => false
  | base_cmd :: params =>
      if bool_decide (base_cmd ∈ takes_no_parameter) then
        bool_decide (params = [])
      else if bool_decide (base_cmd ∈ needs_parameter) then
        negb (bool_decide (params = []))
      else true
  end.

(** A token list that reaches [calibrate_line_sensors]: LINE CALIBRATE. *)
Definition requests_calibration (parts : list string) : bool :=
  match parts with
  | base_cmd :: param :: _ =>
      String.eqb base_cmd "LINE" && String.eqb (upper param) "CALIBRATE"
  | _ => false
  end.

(** [clamp(x, lo, hi)]: [x] brought into the interval from [lo] to [hi]. *)
Definition clamp (x lo hi : Z) : Z := Z.max lo (Z.min hi x).

(** The weighted centroid as the program computes it, over the sum of all
    five readings. *)
Definition centroid_of_five (v0 v1 v2 v3 v4 : Z) : Z :=
  let total := v0 + v1 + v2 + v3 + v4 in
  if total =? 0 then 2000
  else (1000 * v1 + 2000 * v2 + 3000 * v3 + 4000 * v4) `div` total.

(** The weighted centroid over the sum of the four weighted readings only,
    as the design document words it. *)
Definition centroid_of_four (v1 v2 v3 v4 : Z) : Z :=
  let total := v1 + v2 + v3 + v4 in
  if total =? 0 then 2000
  else (1000 * v1 + 2000 * v2 + 3000 * v3 + 4000 * v4) `div` total.

(** Driver calls [start], ..., [start + n - 1] all succeed. *)
Definition fault_free (faults : nat → option string) (start n : nat) : Prop :=
  ∀ j, (j < n)%nat → faults (start + j)%nat = None.

(** Driver call [start + k] is the first one to fail, with [msg]. *)
Definition first_fault_at (faults : nat → option string) (start k : nat)
    (msg : string) : Prop :=
  faults (start + k)%nat = Some msg ∧ fault_free faults start k.

(** A driver computation that makes [n] driver calls when none fails and
    stops with the description of the first one that does. *)
Definition makes_calls (n : nat) (m : driver ()) : Prop :=
  ∀ faults hw,
    (fault_free faults (hw_calls hw) n →
     ∃ mot, m faults hw
            = (Ok (), {| hw_motors := mot; hw_calls := (hw_calls hw + n)%nat |}))
    ∧ (∀ k msg, (k < n)%nat → first_fault_at faults (hw_calls hw) k msg →
       ∃ hw', m faults hw = (Raise (DriverError msg), hw')).

(** The serial block run over successive passes of the loop, each pass with
    its own [World] and the bytes its [uart.read()] returned; the result
    accumulates what was written and dispatched, and keeps the first fault. *)
Fixpoint receive_all (g : Globals) (rx_buffer : string)
    (passes : list (World * string)) : Received :=
  match passes with
  | [] =>
      {| rc_globals := g; rc_buffer := rx_buffer; rc_written := [];
         rc_dispatched := []; rc_fault := None |}
  | (w, data) :: rest =>
      let r := serial_receive w g rx_buffer data in
      let r' := receive_all (rc_globals r) (rc_buffer r) rest in
      {| rc_globals := rc_globals r';
         rc_buffer := rc_buffer r';
         rc_written := rc_written r ++ rc_written r';
         rc_dispatched := rc_dispatched r ++ rc_dispatched r';
         rc_fault :=
           match rc_fault r with
           | Some e => Some e
           | None => rc_fault r'
           end |}
  end.

(** What a list of complete frames leads to, read off the text alone: the
    frames handed to [process_command], in order, up to and including the
    first one that is not dispatchable, and whether there is such a one. *)
Fixpoint scan (commands : list string) : list string * bool :=
  match commands with
  | [] => ([], false)
  | cmd :: rest =>
      if truthy (strip cmd) then
        if dispatchable (tokens (strip cmd)) then
          let '(frames, fault) := scan rest in (strip cmd :: frames, fault)
        else ([strip cmd], true)
      else scan rest
  end.

(** The frames dispatched, the buffer left and the presence of a fault of
    one run of the serial block, read off the text alone. *)
Definition receive_text (rx_buffer data : string) : list string * string * bool :=
  if truthy data then
    if utf8_check data then
      let commands := split_on LF (rx_buffer +:+ data) in
      let '(frames, fault) := scan (removelast commands) in
      (frames, if fault then "" else List.last commands "", fault)
    else ([], "", true)
  else ([], rx_buffer, false).

Fixpoint receive_text_all (rx_buffer : string) (datas : list string)
    : list string * string * bool :=
  match datas with
  | [] => ([], rx_buffer, false)
  | data :: rest =>
      let '(frames, rx_buffer, fault) := receive_text rx_buffer data in
      let '(frames', rx_buffer, fault') := receive_text_all rx_buffer rest in
      (frames ++ frames', rx_buffer, fault || fault')
  end.

Definition summary (r : Received) : list string * string * bool :=
  (rc_dispatched r, rc_buffer r, bool_decide (is_Some (rc_fault r))).

(** The bytes of successive reads put end to end. *)
Definition joined (datas : list string) : string :=
  foldr String.append "" datas.

(** Sample inputs *)

Definition released : World :=
  {| left_is_pressed := false; right_is_pressed := false;
     read_calibrated := [0; 0; 900; 0; 0]; randint_80_100 := 90;
     uart_read := ""; driver_fault := λ _, None |}.

Definition bumped : World :=
  {| left_is_pressed := true; right_is_pressed := false;
     read_calibrated := [0; 0; 900; 0; 0]; randint_80_100 := 90;
     uart_read := ""; driver_fault := λ _, None |}.

Definition side_lit : World :=
  {| left_is_pressed := false; right_is_pressed := false;
     read_calibrated := [1000; 1000; 0; 0; 0]; randint_80_100 := 90;
     uart_read := ""; driver_fault := λ _, None |}.

Definition nothing_seen : World :=
  {| left_is_pressed := false; right_is_pressed := false;
     read_calibrated := [0; 0; 0; 0; 0]; randint_80_100 := 90;
     uart_read := ""; driver_fault := λ _, None |}.

Definition fault_at_30 : World :=
  {| left_is_pressed := false; right_is_pressed := false;
     read_calibrated := [0; 0; 0; 0; 0]; randint_80_100 := 90;
     uart_read := "";
     driver_fault := λ k, if decide (k = 30%nat) then Some "EIO" else None |}.

Definition following : Globals :=
  {| current_mode := MODE_LINE_FOLLOWING; line_calibrated := true;
     current_speed := SPEED_LEVEL_1; p := 0; last_p := 0;
     line := [0; 0; 900; 0; 0]; collision_detected := false;
     motors := set_speeds 1000 1000 |}.

Definition drifting_left : Globals :=
  {| current_mode := MODE_LINE_FOLLOWING; line_calibrated := true;
     current_speed := SPEED_LEVEL_1; p := -5; last_p := -5;
     line := [0; 0; 0; 0; 0]; collision_detected := false;
     motors := set_speeds 1000 1000 |}.

End RobotSpec.

(** ** Vocabulary of the statements about the bridge node *)

Module BridgeSpec.

Import BridgeNode.

(** The notifications that carry [message] to every connection of a set. *)
Definition fan_out (connections : gset Z) (message : string)
    : list (Z * string) :=
  (λ conn_handle, (conn_handle, message)) <$> elements connections.

(** Two centrals connected, with handles 3 and 7. *)
Definition two_centrals : Globals :=
  _irq (_IRQ_CENTRAL_CONNECT 7) (_irq (_IRQ_CENTRAL_CONNECT 3) initial).

End BridgeSpec.

(** ** Vocabulary of the further statements about the robot node *)

Module RobotRun.

Import RobotNode RobotSpec.

(** Successive passes of the [while True] loop of [main], one [World] per
    pass; a fault that leaves a pass ends the program. *)
Fixpoint run_loop (ws : list World) (s : Loop) : result Loop :=
  match ws with
  | [] => Ok s
  | w :: ws => s' ← loop_iteration w s; run_loop ws s'
  end.

(** A property of every function of the command table. *)
Definition handlers_all (Q : handler → Prop) : Prop :=
  Q cmd_status ∧ Q cmd_forward ∧ Q cmd_backward ∧ Q cmd_left ∧ Q cmd_right
  ∧ Q cmd_stop
  ∧ (∀ level, Q (cmd_speed level))
  ∧ (∀ param, Q (cmd_line_follow param))
  ∧ (∀ val, Q (cmd_heartbeat val)).

(** A property of the state that every part of the program keeps: the
    functions of the command table, the collision check and a line-following
    step. *)
Definition kept_by_program (I : Globals → Prop) : Prop :=
  (∀ w g, I g → handlers_all (λ h, I (h w g).2))
  ∧ (∀ w g, I g → I (check_collisions w g).2)
  ∧ (∀ w g g', I g → follow_line w g = Ok g' → I g').

(** The speed magnitude is one of the three levels. *)
Definition speed_in_table (g : Globals) : Prop :=
  current_speed g = SPEED_LEVEL_1
  ∨ current_speed g = SPEED_LEVEL_2
  ∨ current_speed g = SPEED_LEVEL_3.

(** Line-following mode is entered only with calibrated sensors. *)
Definition following_is_calibrated (g : Globals) : Prop :=
  current_mode g = MODE_LINE_FOLLOWING → line_calibrated g = true.

(** The names of the commands that can change the state of the robot. *)
Definition state_changing : list string :=
  ["FORWARD"; "BACKWARD"; "LEFT"; "RIGHT"; "STOP"; "SPEED"; "LINE"].

(** The responses of [process_command] to successive frames, each frame
    dispatched in the state the one before it left, up to the first frame
    that raises. *)
Fixpoint responses (w : World) (g : Globals) (frames : list string)
    : list string :=
  match frames with
  | [] => []
  | frame :: rest =>
      match process_command w g frame with
      | Ok (response, g') => response :: responses w g' rest
      | Raise _ => []
      end
  end.

(** The effects on the motors of the driver calls made so far. *)
Definition after_calls (effects : list (Motors → Motors)) (m : Motors)
    : Motors :=
  foldl (λ mot effect, effect mot) m effects.

(** A driver computation that makes one driver call per listed effect,
    each call taking its effect when it succeeds, and that stops at the
    first call that fails, with the motors as the calls before it left
    them. *)
Definition runs (effects : list (Motors → Motors)) (m : driver ()) : Prop :=
  ∀ faults hw,
    (fault_free faults (hw_calls hw) (length effects) →
     m faults hw
     = (Ok (), {| hw_motors := after_calls effects (hw_motors hw);
                  hw_calls := (hw_calls hw + length effects)%nat |}))
    ∧ (∀ k msg, (k < length effects)%nat →
       first_fault_at faults (hw_calls hw) k msg →
       m faults hw
       = (Raise (DriverError msg),
          {| hw_motors := after_calls (take k effects) (hw_motors hw);
             hw_calls := (hw_calls hw + S k)%nat |})).

(** The driver calls of the calibration sweep, in order: three spins, each
    a speed command, the calibration samples and a stop. *)
Definition sweep_effects : list (Motors → Motors) :=
  [λ _, set_speeds calibration_speed (- calibration_speed)]
  ++ replicate (range_int_div calibration_count 4) (λ m, m)
  ++ [λ _, off]
  ++ [λ _, set_speeds (- calibration_speed) calibration_speed]
  ++ replicate (range_int_div calibration_count 2) (λ m, m)
  ++ [λ _, off]
  ++ [λ _, set_speeds calibration_speed (- calibration_speed)]
  ++ replicate (range_int_div calibration_count 4) (λ m, m)
  ++ [λ _, off].

(** The wheels turn against each other at the calibration speed. *)
Definition spinning (m : Motors) : Prop :=
  _left_speed m = - _right_speed m
  ∧ Z.abs (_left_speed m) = calibration_speed.

(** Sample passes: a pass in which SPEED 3 arrives, one in which a
    parameterless LINE query arrives in line-following mode with a bump
    sensor pressed, and one in which the driver returns no reading. *)
Definition speed_3_arrives : World :=
  {| left_is_pressed := false; right_is_pressed := false;
     read_calibrated := [0; 0; 900; 0; 0]; randint_80_100 := 90;
     uart_read := "speed 3" +:+ newline; driver_fault := λ _, None |}.

Definition forward_arrives_bumped : World :=
  {| left_is_pressed := false; right_is_pressed := true;
     read_calibrated := [0; 0; 900; 0; 0]; randint_80_100 := 90;
     uart_read := "forward" +:+ newline; driver_fault := λ _, None |}.

Definition no_reading : World :=
  {| left_is_pressed := false; right_is_pressed := false;
     read_calibrated := []; randint_80_100 := 90;
     uart_read := ""; driver_fault := λ _, None |}.

End RobotRun.

(** ** The main loop of the bridge node, and vocabulary of the further
    statements about it *)

Module BridgeRun.

Import BridgeNode BridgeSpec.

(** One pass of the [while True] body of [main], from the counter before
    the pass and the bytes pending on the serial link. *)
Definition loop_iteration (pending : string) (counter : Z) (g : Globals)
    : Z * Globals :=
  let counter := counter + 1 in
  let '(_, g) := check_for_robot_response pending g in
  let g :=
    if counter `mod` 30 =? 0 then
      let heartbeat := "HEARTBEAT " +:+ str_int (counter `div` 30) +:+ newline in
      let g :=
        {| is_connected := is_connected g; last_command := last_command g;
           last_response := last_response g; ble_service := ble_service g;
           uart_written := uart_written g ++ [heartbeat] |} in
      if is_connected g then
        {| is_connected := is_connected g; last_command := last_command g;
           last_response := last_response g;
           ble_service :=
             (λ self,
                update_tx self
                  ("Bridge active - Last robot response: "
                     +:+ last_response g))
             <$> ble_service g;
           uart_written := uart_written g |}
      else g
    else g in
  (counter, g).

(** What happens to the bridge, one thing at a time: a radio event handled
    by [_irq], or a pass of the main loop. *)
Inductive step :=
| Radio (ev : event)
| Pass (pending : string).

Definition do_step (st : step) (b : Z * Globals) : Z * Globals :=
  match st with
  | Radio ev => (b.1, _irq ev b.2)
  | Pass pending => loop_iteration pending b.1 b.2
  end.

(** The bridge after a sequence of steps, from the start of the loop. *)
Definition run (steps : list step) : Z * Globals :=
  foldl (λ b st, do_step st b) (0, BridgeNode.initial) steps.

(** The connected flag is set only while there is a connection. *)
Definition connected_has_connection (g : Globals) : Prop :=
  is_connected g = true →
  ∃ self, ble_service g = Some self ∧ _connections self ≠ ∅.

(** The connection set of the bridge, empty before the bridge exists. *)
Definition connections (g : Globals) : gset Z :=
  match ble_service g with
  | Some self => _connections self
  | None => ∅
  end.

(** The notifications sent so far. *)
Definition notifications (g : Globals) : list (Z * string) :=
  match ble_service g with
  | Some self => notified self
  | None => []
  end.

(** Text that decoding, white-space stripping and upper-casing leave
    alone: ASCII, no white space, no lower-case letter. *)
Fixpoint plain (s : string) : bool :=
  match s with
  | String c s' =>
      (Ascii.N_of_ascii c <? 128)%N && negb (Ascii.is_space c)
      && Ascii.eqb (toupper c) c && plain s'
  | EmptyString => true
  end.

End BridgeRun.

(** ** Facts about text *)

Section Text.

Lemma append_cons c (a b : string) : String c a +:+ b = String c (a +:+ b).
Proof. reflexivity. Qed.

Lemma append_empty_l (b : string) : "" +:+ b = b.
Proof. reflexivity. Qed.

Lemma append_assoc (a b c : string) : (a +:+ b) +:+ c = a +:+ (b +:+ c).
Proof. induction a as [|x a IH]; [done|]. by rewrite !append_cons, IH. Qed.

Lemma append_empty_r (a : string) : a +:+ "" = a.
Proof. induction a as [|x a IH]; [done|]. by rewrite append_cons, IH. Qed.

Lemma truthy_false (s : string) : truthy s = false → s = "".
Proof. by destruct s. Qed.

Lemma truthy_append_r (a b : string) : truthy b = true → truthy (a +:+ b) = true.
Proof. by destruct a, b. Qed.

Lemma contains_append c (a b : string) :
  contains c (a +:+ b) = contains c a || contains c b.
Proof.
  induction a as [|x a IH]; [done|].
  rewrite append_cons. cbn [contains]. rewrite IH. by destruct (Ascii.eqb x c).
Qed.

Lemma split_on_not_nil sep s : split_on sep s ≠ [].
Proof.
  destruct s as [|c s]; cbn; [done|].
  destruct (Ascii.eqb c sep); [done|].
  by destruct (split_on sep s).
Qed.

Lemma split_on_without sep s : contains sep s = false → split_on sep s = [s].
Proof.
  induction s as [|c s IH]; cbn; [done|].
  destruct (Ascii.eqb c sep); cbn; [done|].
  intros Hs. by rewrite IH.
Qed.

(** Splitting a text that continues: the complete pieces of the first part
    stay, and its last piece is completed by the continuation. *)
Lemma split_on_append sep (a b : string) :
  split_on sep (a +:+ b)
  = removelast (split_on sep a)
      ++ split_on sep (List.last (split_on sep a) "" +:+ b).
Proof.
  induction a as [|c a IH]; [done|].
  rewrite append_cons. cbn [split_on].
  destruct (Ascii.eqb c sep) eqn:Hc.
  - rewrite IH. pose proof (split_on_not_nil sep a) as Hne.
    by destruct (split_on sep a) as [|t ts].
  - rewrite IH.
    destruct (split_on sep a) as [|t [|t2 ts]] eqn:Ha.
    + by apply split_on_not_nil in Ha.
    + cbn [removelast List.last app]. rewrite append_cons.
      cbn [split_on]. by rewrite Hc.
    + done.
Qed.

Lemma split_on_frame sep (a b : string) :
  contains sep a = false →
  split_on sep (a +:+ String sep b) = a :: split_on sep b.
Proof.
  induction a as [|c a IH].
  - intros _. rewrite append_empty_l. cbn [split_on].
    by rewrite Ascii.eqb_refl.
  - cbn [contains]. rewrite append_cons. cbn [split_on].
    destruct (Ascii.eqb c sep); [done|].
    intros Ha. by rewrite IH.
Qed.

Lemma utf8_scan_append need (a b : string) :
  utf8_scan need (a +:+ b)
  = match utf8_scan need a with
    | Some need' => utf8_scan need' b
    | None => None
    end.
Proof.
  revert need. induction a as [|c a IH]; intros need; [done|].
  rewrite append_cons. cbn [utf8_scan].
  by destruct (utf8_step need c).
Qed.

Lemma utf8_check_append (a b : string) :
  utf8_check a = true → utf8_check b = true → utf8_check (a +:+ b) = true.
Proof.
  unfold utf8_check. rewrite utf8_scan_append.
  by destruct (utf8_scan 0 a) as [[|need]|].
Qed.

Lemma last_app_r {A} (xs ys : list A) (d : A) :
  ys ≠ [] → List.last (xs ++ ys) d = List.last ys d.
Proof.
  intros Hys. induction xs as [|x xs IH]; [done|].
  cbn [app List.last]. destruct (xs ++ ys) eqn:Happ; [|done].
  by apply app_eq_nil in Happ as [_ ->].
Qed.

End Text.

(** ** Properties of the robot-control node *)

Module RobotProperties.

Import RobotNode RobotSpec RobotRun.

(** *** Dispatch *)

Lemma process_command_tokens w g command :
  process_command w g command =
  match tokens command with
  | [] => Raise IndexError
  | base_cmd :: params =>
      match COMMANDS !! base_cmd with
      | Some (Callable f) => call f (take 1 params) w g
      | Some (Static fixed) => Ok (fixed, g)
      | None => Ok ("ERROR:UNKNOWN_COMMAND", g)
      end
  end.
Proof.
  unfold process_command, tokens.
  destruct (split (upper (strip command))) as [|base_cmd params]; [done|].
  destruct (COMMANDS !! base_cmd) as [[fixed|f]|]; try done.
  by destruct params.
Qed.

Lemma call_accepts f args w g :
  (length args ≤ 1)%nat → is_ok (call f args w g) = accepts f (length args).
Proof.
  intros Hlen. destruct args as [|a [|b args]]; cbn in Hlen; [..|lia];
    by destruct f.
Qed.

(** Whether [process_command] answers or raises is decided by the tokens of
    the command alone. *)
Lemma process_command_answers w g command :
  is_ok (process_command w g command) = dispatchable (tokens command).
Proof.
  rewrite process_command_tokens. unfold dispatchable.
  destruct (tokens command) as [|base_cmd params]; [done|].
  destruct (COMMANDS !! base_cmd) as [[fixed|f]|]; try done.
  apply call_accepts. rewrite length_take. lia.
Qed.

Lemma COMMANDS_FORWARD :
  COMMANDS !! "FORWARD" = Some (Callable (Def0 cmd_forward)).
Proof. reflexivity. Qed.

Lemma COMMANDS_inv base_cmd e :
  COMMANDS !! base_cmd = Some e →
  (base_cmd, e) ∈
    [ ("PING", Static "PONG");
      ("STATUS", Callable (Def0 cmd_status));
      ("FORWARD", Callable (Def0 cmd_forward));
      ("BACKWARD", Callable (Def0 cmd_backward));
      ("LEFT", Callable (Def0 cmd_left));
      ("RIGHT", Callable (Def0 cmd_right));
      ("STOP", Callable (Def0 cmd_stop));
      ("SPEED", Callable (Def1 cmd_speed));
      ("LINE", Callable (Def1_default "" cmd_line_follow));
      ("HEARTBEAT", Callable (Def1 cmd_heartbeat)) ].
Proof. apply elem_of_list_to_map_2. Qed.

(** The table read name by name. *)
Lemma dispatchable_answered parts : dispatchable parts = answered parts.
Proof.
  destruct parts as [|base_cmd params]; [done|].
  unfold dispatchable, answered.
  destruct (COMMANDS !! base_cmd) as [e|] eqn:Hlookup.
  - apply COMMANDS_inv in Hlookup.
    repeat (apply elem_of_cons in Hlookup as [Heq|Hlookup];
            [simplify_eq; by destruct params as [|a [|b params]]|]).
    by apply elem_of_nil in Hlookup.
  - case_bool_decide as Hno.
    { unfold takes_no_parameter in Hno.
      repeat (apply elem_of_cons in Hno as [->|Hno]; [by vm_compute in Hlookup|]).
      by apply elem_of_nil in Hno. }
    case_bool_decide as Hone; [|done].
    unfold needs_parameter in Hone.
    repeat (apply elem_of_cons in Hone as [->|Hone]; [by vm_compute in Hlookup|]).
    by apply elem_of_nil in Hone.
Qed.

(** *** The serial block, frame by frame *)

Lemma utf8_check_after_frame (frame rest : string) :
  utf8_check (frame +:+ String LF rest) = true → utf8_check rest = true.
Proof.
  unfold utf8_check. rewrite utf8_scan_append.
  destruct (utf8_scan 0 frame) as [[|need]|]; [done| |done].
  cbn [utf8_scan]. by destruct need.
Qed.

(** A read that completes a frame: the frame is dispatched, and the block
    goes on with the text behind it only if the dispatch did not raise. *)
Lemma serial_receive_frame w g rx_buffer frame rest :
  let cmd := rx_buffer +:+ frame in
  contains LF cmd = false →
  utf8_check (frame +:+ newline +:+ rest) = true →
  truthy (strip cmd) = true →
  serial_receive w g rx_buffer (frame +:+ newline +:+ rest)
  = match process_command w g (strip cmd) with
    | Ok (response, g') =>
        let r := serial_receive w g' "" rest in
        {| rc_globals := rc_globals r; rc_buffer := rc_buffer r;
           rc_written := (response +:+ newline) :: rc_written r;
           rc_dispatched := strip cmd :: rc_dispatched r;
           rc_fault := rc_fault r |}
    | Raise e =>
        {| rc_globals := g; rc_buffer := ""; rc_written := [];
           rc_dispatched := [strip cmd]; rc_fault := Some e |}
    end.
Proof.
  intros cmd Hnl Hutf Hcmd.
  change (frame +:+ newline +:+ rest) with (frame +:+ String LF rest) in *.
  pose proof (utf8_check_after_frame _ _ Hutf) as Hrest.
  unfold serial_receive at 1, decode.
  rewrite truthy_append_r, Hutf by done.
  rewrite <- append_assoc. fold cmd.
  rewrite contains_append. cbn [contains].
  rewrite Ascii.eqb_refl, orb_true_r.
  rewrite split_on_frame by done.
  pose proof (split_on_not_nil LF rest) as Hne.
  destruct (split_on LF rest) as [|piece pieces] eqn:Hsplit; [done|].
  change (removelast (cmd :: piece :: pieces))
    with (cmd :: removelast (piece :: pieces)).
  change (List.last (cmd :: piece :: pieces) "")
    with (List.last (piece :: pieces) "").
  cbn [for_commands]. rewrite Hcmd.
  destruct (process_command w g (strip cmd)) as [[response g']|e]; [|done].
  cbn [dr_globals dr_written dr_dispatched dr_fault].
  unfold serial_receive, decode.
  destruct rest as [|c rest'].
  { by injection Hsplit as <- <-. }
  cbn [truthy]. rewrite Hrest, append_empty_l.
  destruct (contains LF (String c rest')) eqn:Hlf.
  - by rewrite Hsplit.
  - rewrite split_on_without in Hsplit by done.
    by injection Hsplit as <- <-.
Qed.

(** *** The serial block, read off the text *)

Lemma for_commands_scan w commands g :
  (dr_dispatched (for_commands w g commands),
   bool_decide (is_Some (dr_fault (for_commands w g commands))))
  = scan commands.
Proof.
  revert g. induction commands as [|cmd rest IH]; intros g; [done|].
  cbn [for_commands scan].
  destruct (truthy (strip cmd)); [|apply IH].
  rewrite <- (process_command_answers w g (strip cmd)).
  destruct (process_command w g (strip cmd)) as [[response g']|e];
    cbn [is_ok dr_dispatched dr_fault]; [|done].
  specialize (IH g'). destruct (scan rest) as [frames fault].
  by injection IH as -> ->.
Qed.

Lemma serial_receive_summary w g rx_buffer data :
  summary (serial_receive w g rx_buffer data) = receive_text rx_buffer data.
Proof.
  unfold serial_receive, receive_text, decode, summary.
  destruct (truthy data); [|done].
  destruct (utf8_check data); [|done].
  destruct (contains LF (rx_buffer +:+ data)) eqn:Hnl.
  - cbn [rc_dispatched rc_buffer rc_fault].
    pose proof (for_commands_scan w
      (removelast (split_on LF (rx_buffer +:+ data))) g) as Hscan.
    destruct (scan _) as [frames fault].
    injection Hscan as -> <-.
    by destruct (dr_fault _).
  - by rewrite split_on_without.
Qed.

Lemma receive_all_summary g rx_buffer passes :
  summary (receive_all g rx_buffer passes)
  = receive_text_all rx_buffer (passes.*2).
Proof.
  revert g rx_buffer.
  induction passes as [|[w data] rest IH]; intros g rx_buffer; [done|].
  cbn [receive_all fmap list_fmap snd receive_text_all].
  rewrite <- (serial_receive_summary w g rx_buffer data).
  unfold summary at 2.
  rewrite <- (IH (rc_globals (serial_receive w g rx_buffer data))
                 (rc_buffer (serial_receive w g rx_buffer data))).
  unfold summary. cbn [rc_dispatched rc_buffer rc_fault].
  by destruct (rc_fault (serial_receive w g rx_buffer data)),
    (rc_fault (receive_all _ _ rest)).
Qed.

Lemma scan_app xs ys :
  scan (xs ++ ys)
  = let '(frames, fault) := scan xs in
    if fault then (frames, true)
    else let '(frames', fault') := scan ys in (frames ++ frames', fault').
Proof.
  induction xs as [|cmd xs IH]; cbn [app scan].
  - by destruct (scan ys).
  - destruct (truthy (strip cmd)); [|done].
    destruct (dispatchable (tokens (strip cmd))); [|done].
    rewrite IH. destruct (scan xs) as [frames [|]]; [done|].
    by destruct (scan ys).
Qed.

Lemma scan_without_fault commands :
  (scan commands).2 = false →
  (scan commands).1 = filter (λ cmd, truthy cmd = true) (strip <$> commands).
Proof.
  induction commands as [|cmd rest IH]; [done|].
  cbn [scan fmap list_fmap]. rewrite filter_cons.
  destruct (truthy (strip cmd)) eqn:Hcmd.
  - rewrite decide_True by done.
    destruct (dispatchable (tokens (strip cmd))); [|done].
    destruct (scan rest) as [frames fault]. cbn [fst snd] in *.
    intros ->. by rewrite IH.
  - rewrite decide_False by done. apply IH.
Qed.

Lemma receive_text_append rx_buffer d d' frames b frames' b' :
  receive_text rx_buffer d = (frames, b, false) →
  receive_text b d' = (frames', b', false) →
  receive_text rx_buffer (d +:+ d') = (frames ++ frames', b', false).
Proof.
  unfold receive_text at 1.
  destruct (truthy d) eqn:Hd.
  - destruct (utf8_check d) eqn:Hutf; [|done].
    destruct (scan (removelast (split_on LF (rx_buffer +:+ d))))
      as [fr fault] eqn:Hscan.
    intros [= -> Hb ->]. subst b.
    unfold receive_text at 1.
    destruct (truthy d') eqn:Hd'.
    + destruct (utf8_check d') eqn:Hutf'; [|done].
      destruct (scan (removelast (split_on LF
                  (List.last (split_on LF (rx_buffer +:+ d)) "" +:+ d'))))
        as [fr' fault'] eqn:Hscan'.
      intros [= -> Hb' ->]. subst b'.
      unfold receive_text.
      rewrite truthy_append_r, utf8_check_append by done.
      rewrite <- append_assoc, split_on_append.
      rewrite removelast_app, last_app_r by apply split_on_not_nil.
      by rewrite scan_app, Hscan, Hscan'.
    + apply truthy_false in Hd' as ->. intros [= <- <-].
      rewrite append_empty_r, app_nil_r.
      unfold receive_text. by rewrite Hd, Hutf, Hscan.
  - apply truthy_false in Hd as ->. intros [= <- <-]. by rewrite append_empty_l.
Qed.

Lemma receive_text_all_joined datas rx_buffer frames b :
  receive_text_all rx_buffer datas = (frames, b, false) →
  receive_text rx_buffer (joined datas) = (frames, b, false).
Proof.
  revert rx_buffer frames b.
  induction datas as [|d datas IH]; intros rx_buffer frames b.
  - by intros [= <- <-].
  - cbn [receive_text_all joined foldr].
    destruct (receive_text rx_buffer d) as [[fr1 b1] e1] eqn:H1.
    destruct (receive_text_all b1 datas) as [[fr2 b2] e2] eqn:H2.
    intros [= <- <- He].
    apply orb_false_iff in He as [-> ->].
    by apply (receive_text_append _ _ _ fr1 b1), IH.
Qed.

(** *** Driver calls of the calibration sweep *)

Lemma makes_calls_ret : makes_calls 0 (mret ()).
Proof.
  intros faults [mot calls]. split.
  - intros _. exists mot. cbn. by rewrite Nat.add_0_r.
  - intros k msg Hk. lia.
Qed.

Lemma makes_calls_driver_call effect : makes_calls 1 (driver_call effect).
Proof.
  intros faults [mot calls]. unfold driver_call. cbn [hw_calls hw_motors]. split.
  - intros Hfree. specialize (Hfree 0%nat ltac:(lia)).
    rewrite Nat.add_0_r in Hfree. rewrite Hfree.
    eexists. by rewrite Nat.add_1_r.
  - intros k msg Hk [Hat _]. assert (k = 0%nat) as -> by lia.
    rewrite Nat.add_0_r in Hat. rewrite Hat. by eexists.
Qed.

Lemma makes_calls_seq n1 n2 (m1 m2 : driver ()) :
  makes_calls n1 m1 → makes_calls n2 m2 → makes_calls (n1 + n2) (m1;; m2).
Proof.
  intros H1 H2 faults hw.
  destruct (H1 faults hw) as [H1ok H1raise].
  unfold mbind, driver_bind. split.
  - intros Hfree.
    destruct H1ok as [mot1 ->].
    { intros j Hj. apply Hfree. lia. }
    destruct (H2 faults {| hw_motors := mot1; hw_calls := (hw_calls hw + n1)%nat |})
      as [H2ok _].
    destruct H2ok as [mot2 ->].
    { intros j Hj. cbn. rewrite <- Nat.add_assoc. apply Hfree. lia. }
    exists mot2. cbn. by rewrite Nat.add_assoc.
  - intros k msg Hk [Hat Hbefore].
    destruct (decide (k < n1)%nat) as [Hlt|Hge].
    + destruct (H1raise k msg Hlt) as [hw' ->]; [by split|]. by eexists.
    + destruct H1ok as [mot1 ->].
      { intros j Hj. apply Hbefore. lia. }
      destruct (H2 faults {| hw_motors := mot1; hw_calls := (hw_calls hw + n1)%nat |})
        as [_ H2raise].
      apply (H2raise (k - n1)%nat msg); [lia|]. cbn. split.
      * rewrite <- Hat. f_equal. lia.
      * intros j Hj. rewrite <- Nat.add_assoc. apply Hbefore. lia.
Qed.

Lemma makes_calls_for_range k n (body : driver ()) :
  makes_calls n body → makes_calls (k * n) (for_range k body).
Proof.
  intros Hbody. induction k as [|k IH]; cbn [for_range Nat.mul].
  - apply makes_calls_ret.
  - by apply makes_calls_seq.
Qed.

Lemma calibration_sweep_calls : makes_calls 106 calibration_sweep.
Proof.
  unfold calibration_sweep.
  change 106%nat with
    (1 + (25 * 1 + (1 + (1 + (50 * 1 + (1 + (1 + (25 * 1 + 1))))))))%nat.
  repeat first
    [ apply makes_calls_seq
    | apply makes_calls_for_range
    | apply makes_calls_driver_call
    | apply makes_calls_ret ].
Qed.

(** The sweep call by call, with the effect of each call on the motors *)

Lemma after_calls_app effects1 effects2 m :
  after_calls (effects1 ++ effects2) m
  = after_calls effects2 (after_calls effects1 m).
Proof. apply foldl_app. Qed.

Lemma runs_ret : runs [] (mret ()).
Proof.
  intros faults [mot calls]. split.
  - intros _. cbn. by rewrite Nat.add_0_r.
  - intros k msg Hk. cbn in Hk. lia.
Qed.

Lemma runs_driver_call effect : runs [effect] (driver_call effect).
Proof.
  intros faults [mot calls]. unfold driver_call.
  cbn [hw_calls hw_motors length]. split.
  - intros Hfree. specialize (Hfree 0%nat ltac:(lia)).
    rewrite Nat.add_0_r in Hfree. rewrite Hfree.
    by rewrite Nat.add_1_r.
  - intros k msg Hk [Hat _]. assert (k = 0%nat) as -> by lia.
    rewrite Nat.add_0_r in Hat. rewrite Hat. by rewrite Nat.add_1_r.
Qed.

Lemma runs_seq effects1 effects2 (m1 m2 : driver ()) :
  runs effects1 m1 → runs effects2 m2 → runs (effects1 ++ effects2) (m1;; m2).
Proof.
  intros H1 H2 faults hw.
  destruct (H1 faults hw) as [H1ok H1raise].
  unfold mbind, driver_bind. rewrite length_app. split.
  - intros Hfree.
    rewrite H1ok by (intros j Hj; apply Hfree; lia).
    destruct (H2 faults
      {| hw_motors := after_calls effects1 (hw_motors hw);
         hw_calls := (hw_calls hw + length effects1)%nat |}) as [H2ok _].
    rewrite H2ok.
    + cbn [hw_motors hw_calls]. by rewrite after_calls_app, Nat.add_assoc.
    + intros j Hj. cbn. rewrite <- Nat.add_assoc. apply Hfree. lia.
  - intros k msg Hk [Hat Hbefore].
    destruct (decide (k < length effects1)%nat) as [Hlt|Hge].
    + rewrite (H1raise k msg Hlt) by (by split).
      by rewrite take_app_le by lia.
    + rewrite H1ok by (intros j Hj; apply Hbefore; lia).
      destruct (H2 faults
        {| hw_motors := after_calls effects1 (hw_motors hw);
           hw_calls := (hw_calls hw + length effects1)%nat |}) as [_ H2raise].
      rewrite (H2raise (k - length effects1)%nat msg).
      * cbn [hw_motors hw_calls].
        rewrite take_app_ge, after_calls_app by lia.
        do 2 f_equal. lia.
      * lia.
      * cbn. split.
        -- rewrite <- Hat. f_equal. lia.
        -- intros j Hj. rewrite <- Nat.add_assoc. apply Hbefore. lia.
Qed.

Lemma runs_for_range k effect (body : driver ()) :
  runs [effect] body → runs (replicate k effect) (for_range k body).
Proof.
  intros Hbody. induction k as [|k IH]; cbn [for_range replicate].
  - apply runs_ret.
  - by apply (runs_seq [effect]).
Qed.

Lemma calibration_sweep_runs : runs sweep_effects calibration_sweep.
Proof.
  unfold sweep_effects, calibration_sweep.
  apply (runs_seq [_]); [apply runs_driver_call|].
  apply runs_seq; [apply runs_for_range, runs_driver_call|].
  apply (runs_seq [_]); [apply runs_driver_call|].
  apply (runs_seq [_]); [apply runs_driver_call|].
  apply runs_seq; [apply runs_for_range, runs_driver_call|].
  apply (runs_seq [_]); [apply runs_driver_call|].
  apply (runs_seq [_]); [apply runs_driver_call|].
  apply runs_seq; [apply runs_for_range, runs_driver_call|].
  apply runs_driver_call.
Qed.

Lemma sweep_effects_length : length sweep_effects = 106%nat.
Proof. reflexivity. Qed.

Lemma sweep_motors_at_fault k :
  (k < 106)%nat →
  let m := after_calls (take k sweep_effects) off in
  ((k = 0 ∨ k = 27 ∨ k = 79)%nat → m = off)
  ∧ (k ≠ 0%nat → k ≠ 27%nat → k ≠ 79%nat → spinning m).
Proof.
  intros Hk.
  assert (forallb
            (λ k,
               let m := after_calls (take k sweep_effects) off in
               if ((k =? 0) || (k =? 27) || (k =? 79))%nat
               then (_left_speed m =? 0) && (_right_speed m =? 0)
               else (_left_speed m =? - _right_speed m)
                    && (Z.abs (_left_speed m) =? calibration_speed))
            (seq 0 106) = true) as Hall by (vm_compute; reflexivity).
  rewrite forallb_forall in Hall.
  specialize (Hall k). cbv zeta in Hall |- *.
  destruct (after_calls (take k sweep_effects) off) as [l r] eqn:Hm.
  cbn [_left_speed _right_speed] in Hall.
  assert (In k (seq 0 106)) as Hin by (apply in_seq; lia).
  specialize (Hall Hin).
  destruct (Nat.eqb_spec k 0), (Nat.eqb_spec k 27), (Nat.eqb_spec k 79);
    cbn [orb] in Hall; apply andb_true_iff in Hall as [H1 H2];
    apply Z.eqb_eq in H1, H2; split; try (intros; lia);
    try (intros _; unfold off, set_speeds; by f_equal);
    intros _ _ _; by split.
Qed.

(** *** Calibration and the calibrated flag *)

Lemma calibrate_line_sensors_succeeds w g :
  fault_free (driver_fault w) 0 106 →
  ∃ mot, calibrate_line_sensors w g
         = ("LINE_SENSORS:CALIBRATED_AND_FOLLOWING",
            with_mode MODE_LINE_FOLLOWING
              (with_calibrated true
                 (with_motors mot
                    (with_motors off (with_mode MODE_STOPPED g))))).
Proof.
  intros Hfree.
  destruct (calibration_sweep_calls (driver_fault w)
              {| hw_motors := off; hw_calls := 0 |}) as [Hok _].
  destruct (Hok Hfree) as [mot Hsweep].
  exists mot. unfold calibrate_line_sensors.
  cbn [motors with_motors with_mode]. by rewrite Hsweep.
Qed.

Lemma calibrate_line_sensors_fails w g k msg :
  (k < 106)%nat →
  first_fault_at (driver_fault w) 0 k msg →
  ∃ mot, calibrate_line_sensors w g
         = ("ERROR:CALIBRATION_FAILED (" +:+ msg +:+ ")",
            with_calibrated false
              (with_motors mot
                 (with_motors off (with_mode MODE_STOPPED g)))).
Proof.
  intros Hk Hfault.
  destruct (calibration_sweep_calls (driver_fault w)
              {| hw_motors := off; hw_calls := 0 |}) as [_ Hraise].
  destruct (Hraise k msg Hk Hfault) as [hw' Hsweep].
  exists (hw_motors hw'). unfold calibrate_line_sensors.
  cbn [motors with_motors with_mode]. by rewrite Hsweep.
Qed.

Lemma handlers_keep_calibrated w g :
  line_calibrated (cmd_forward w g).2 = line_calibrated g
  ∧ line_calibrated (cmd_backward w g).2 = line_calibrated g
  ∧ line_calibrated (cmd_left w g).2 = line_calibrated g
  ∧ line_calibrated (cmd_right w g).2 = line_calibrated g
  ∧ line_calibrated (cmd_stop w g).2 = line_calibrated g
  ∧ line_calibrated (cmd_status w g).2 = line_calibrated g
  ∧ (∀ level, line_calibrated (cmd_speed level w g).2 = line_calibrated g)
  ∧ (∀ val, line_calibrated (cmd_heartbeat val w g).2 = line_calibrated g)
  ∧ (∀ param, String.eqb (upper param) "CALIBRATE" = false →
       line_calibrated (cmd_line_follow param w g).2 = line_calibrated g).
Proof.
  repeat split.
  - unfold cmd_forward. by destruct (collision_detected g).
  - unfold cmd_stop. by destruct (current_mode g).
  - intros level. unfold cmd_speed.
    destruct (int level) as [n|]; [|done].
    by destruct (n =? 1), (n =? 2), (n =? 3).
  - intros param Hother. unfold cmd_line_follow. rewrite Hother.
    destruct (String.eqb (upper param) "START"),
      (String.eqb (upper param) "STOP"),
      (line_calibrated g) eqn:Hc, (current_mode g); cbn; congruence.
Qed.

Lemma process_command_keeps_calibrated w g command response g' :
  process_command w g command = Ok (response, g') →
  requests_calibration (tokens command) = false →
  line_calibrated g' = line_calibrated g.
Proof.
  rewrite process_command_tokens.
  destruct (tokens command) as [|base_cmd params]; [done|].
  destruct (COMMANDS !! base_cmd) as [e|] eqn:Hlookup; [|by intros [= _ <-]].
  apply COMMANDS_inv in Hlookup.
  destruct (handlers_keep_calibrated w g)
    as (Hf & Hb & Hl & Hr & Hs & Hst & Hsp & Hhb & Hline).
  repeat (apply elem_of_cons in Hlookup as [Heq|Hlookup];
          [simplify_eq|]);
    [..|by apply elem_of_nil in Hlookup];
    destruct params as [|param params]; cbn [take call];
    try discriminate; intros Hcall Hreq; injection Hcall as Hcall;
    try (by subst);
    match goal with
    | Hbody : _ = (response, g') |- _ =>
        change (line_calibrated g') with (line_calibrated (response, g').2);
        rewrite <- Hbody
    end; try done.
  - by apply Hline.
  - by apply Hline.
Qed.

(** *** Line position *)

Lemma estimate_position_line_seen prev v0 v1 v2 v3 v4 :
  ¬ (v1 < 700 ∧ v2 < 700 ∧ v3 < 700) →
  estimate_position prev [v0; v1; v2; v3; v4]
  = Ok (centroid_of_five v0 v1 v2 v3 v4).
Proof.
  intros Hseen. unfold estimate_position, centroid_of_five, floordiv, sum.
  cbn [getitem lookup list_lookup mbind result_bind foldr].
  replace (v0 + (v1 + (v2 + (v3 + (v4 + 0))))) with (v0 + v1 + v2 + v3 + v4)
    by lia.
  destruct (v1 <? 700) eqn:H1; [destruct (v2 <? 700) eqn:H2;
    [destruct (v3 <? 700) eqn:H3|]|];
    try (apply Z.ltb_lt in H1, H2, H3; tauto);
    by destruct (v0 + v1 + v2 + v3 + v4 =? 0).
Qed.

Lemma clamp_saturates x lo hi :
  lo ≤ hi →
  clamp x lo hi = if x <? lo then lo else if hi <? x then hi else x.
Proof.
  intros Hhi. unfold clamp.
  destruct (Z.ltb_spec x lo), (Z.ltb_spec hi x); lia.
Qed.

(** *** The claims *)

(** C1 (as amended).  [process_command] has no fault boundary of its own:
    it returns a response exactly for the inputs whose tokens are
    dispatchable (a command name is present and, for a function, the
    presence of a parameter fits its signature: STATUS, FORWARD, BACKWARD,
    LEFT, RIGHT and STOP without one, SPEED and HEARTBEAT with one, LINE,
    PING and unknown names either way) and raises for all others.  The
    fault is caught one level up, by the serial block of the main loop.  For
    a read that completes a non-blank frame, whatever text follows the frame
    in the same read: if the frame is dispatchable the block writes the
    response, keeps the new state and goes on with the text behind the
    frame; if it is not, the block writes nothing (no ERROR response),
    leaves the state as it was and empties the receive buffer, so that the
    text behind the frame, complete frames and unfinished tail alike, is
    neither dispatched nor kept.  Whenever the block ends in a fault the
    buffer is empty.  Either way the block returns and the loop goes on. *)
Theorem process_command_fault_boundary (w : World) (g : Globals) :
  (∀ command,
     is_ok (process_command w g command) = dispatchable (tokens command)
     ∧ dispatchable (tokens command) = answered (tokens command))
  ∧ (∀ rx_buffer frame rest,
       let cmd := rx_buffer +:+ frame in
       contains LF cmd = false →
       utf8_check (frame +:+ newline +:+ rest) = true →
       truthy (strip cmd) = true →
       if dispatchable (tokens (strip cmd)) then
         ∃ response g',
           process_command w g (strip cmd) = Ok (response, g')
           ∧ serial_receive w g rx_buffer (frame +:+ newline +:+ rest)
             = (let r := serial_receive w g' "" rest in
                {| rc_globals := rc_globals r; rc_buffer := rc_buffer r;
                   rc_written := (response +:+ newline) :: rc_written r;
                   rc_dispatched := strip cmd :: rc_dispatched r;
                   rc_fault := rc_fault r |})
       else
         ∃ e,
           process_command w g (strip cmd) = Raise e
           ∧ serial_receive w g rx_buffer (frame +:+ newline +:+ rest)
             = {| rc_globals := g; rc_buffer := ""; rc_written := [];
                  rc_dispatched := [strip cmd]; rc_fault := Some e |})
  ∧ (∀ rx_buffer data,
       rc_fault (serial_receive w g rx_buffer data) ≠ None →
       rc_buffer (serial_receive w g rx_buffer data) = "").
Proof.
  split; [|split].
  - intros command.
    split; [apply process_command_answers|apply dispatchable_answered].
  - intros rx_buffer frame rest cmd Hnl Hutf Hcmd.
    rewrite (serial_receive_frame w g rx_buffer frame rest Hnl Hutf Hcmd).
    fold cmd. rewrite <- (process_command_answers w g (strip cmd)).
    destruct (process_command w g (strip cmd)) as [[response g']|e]; cbn.
    + by exists response, g'.
    + by exists e.
  - intros rx_buffer data. unfold serial_receive.
    destruct (truthy data); [|done].
    destruct (decode data) as [new_data|e]; [|done].
    destruct (contains LF (rx_buffer +:+ new_data)); [|done].
    cbn [rc_fault rc_buffer]. by destruct (dr_fault _).
Qed.

Lemma process_command_fault_boundary_witness :
  (∃ response g',
     process_command released RobotNode.initial (strip "ping") = Ok (response, g')
     ∧ serial_receive released RobotNode.initial "pi"
         ("ng" +:+ newline +:+ "sta")
       = (let r := serial_receive released g' "" "sta" in
          {| rc_globals := rc_globals r; rc_buffer := rc_buffer r;
             rc_written := (response +:+ newline) :: rc_written r;
             rc_dispatched := strip "ping" :: rc_dispatched r;
             rc_fault := rc_fault r |}))
  ∧ (∃ e,
       process_command released RobotNode.initial (strip "status x") = Raise e
       ∧ serial_receive released RobotNode.initial ""
           ("status x" +:+ newline +:+ "ping" +:+ newline +:+ "sto")
         = {| rc_globals := RobotNode.initial; rc_buffer := "";
              rc_written := [];
              rc_dispatched := [strip "status x"]; rc_fault := Some e |})
  ∧ rc_buffer
      (serial_receive released RobotNode.initial "sta"
         ("tus x" +:+ newline +:+ "sto"))
    = "".
Proof.
  destruct (process_command_fault_boundary released RobotNode.initial)
    as (_ & Hloop & Hfault).
  split; [|split].
  - apply (Hloop "pi" "ng" "sta"); reflexivity.
  - apply (Hloop "" "status x" ("ping" +:+ newline +:+ "sto")); reflexivity.
  - apply Hfault. by vm_compute.
Defined.

(** C1, the claim as worded fails: a parameter passed to a handler that
    takes none, and a parameterless call of a handler that takes one, raise
    out of [process_command]; no ERROR response is produced. *)
Lemma process_command_raises_on_signature_mismatch :
  process_command released RobotNode.initial "STATUS X"
    = Raise (TypeError "function takes 0 positional arguments but 1 were given")
  ∧ process_command released RobotNode.initial "FORWARD 1"
    = Raise (TypeError "function takes 0 positional arguments but 1 were given")
  ∧ process_command released RobotNode.initial "SPEED"
    = Raise (TypeError "function takes 1 positional arguments but 0 were given")
  ∧ rc_written
      (serial_receive released RobotNode.initial "" ("STATUS X" +:+ newline))
    = [].
Proof. repeat split; reflexivity. Qed.

(** C2 (as amended).  For every five-reading vector in which not all three
    central readings are below 700, one line-following step computes the
    position estimate
    l = (1000·v1 + 2000·v2 + 3000·v3 + 4000·v4) // (v0+v1+v2+v3+v4), the
    divisor being the sum of all five readings, with l = 2000 when that sum
    is zero; then e = l - 2000, d = e - prevError, pid = 15·e + 300·d, the
    wheel setpoints left = clamp(base+pid, 0, base) and
    right = clamp(base-pid, 0, base), and prevError becomes e. *)
Theorem follow_line_control_law (w : World) (g : Globals) (v0 v1 v2 v3 v4 : Z) :
  read_calibrated w = [v0; v1; v2; v3; v4] →
  ¬ (v1 < 700 ∧ v2 < 700 ∧ v3 < 700) →
  let l := centroid_of_five v0 v1 v2 v3 v4 in
  let e := l - 2000 in
  let d := e - last_p g in
  let pid := 15 * e + 300 * d in
  let base := current_speed g in
  ∃ g', follow_line w g = Ok g'
        ∧ motors g'
          = set_speeds (clamp (base + pid) 0 base) (clamp (base - pid) 0 base)
        ∧ p g' = e ∧ last_p g' = e
        ∧ line g' = [v0; v1; v2; v3; v4]
        ∧ current_mode g' = current_mode g
        ∧ current_speed g' = current_speed g
        ∧ line_calibrated g' = line_calibrated g
        ∧ collision_detected g' = collision_detected g.
Proof.
  intros Hread Hseen. unfold follow_line. rewrite Hread.
  rewrite estimate_position_line_seen by done.
  cbn [mbind result_bind]. eexists. split; [reflexivity|].
  cbn [motors p last_p line current_mode current_speed line_calibrated
       collision_detected].
  repeat split; try reflexivity. unfold clamp. f_equal; lia.
Qed.

Lemma follow_line_control_law_witness :
  ∃ g', follow_line side_lit RobotNode.initial = Ok g'
        ∧ motors g' = set_speeds 0 1000
        ∧ p g' = -1500 ∧ last_p g' = -1500
        ∧ line g' = [1000; 1000; 0; 0; 0]
        ∧ current_mode g' = MODE_STOPPED
        ∧ current_speed g' = 1000
        ∧ line_calibrated g' = false
        ∧ collision_detected g' = false.
Proof.
  apply (follow_line_control_law side_lit RobotNode.initial 1000 1000 0 0 0);
    [reflexivity | lia].
Defined.

(** C2, the claim as worded fails: with readings [1000, 1000, 0, 0, 0] the
    central readings are not all below 700; the step leaves the error
    -1500 (position 500, the weighted sum over all five readings), where the
    divisor v1+v2+v3+v4 would give position 1000 and error -1000. *)
Lemma follow_line_divisor_is_not_the_four_reading_sum :
  ¬ (1000 < 700 ∧ 0 < 700 ∧ 0 < 700)
  ∧ ∃ g', follow_line side_lit RobotNode.initial = Ok g'
          ∧ p g' = -1500
          ∧ centroid_of_four 1000 0 0 0 - 2000 = -1000
          ∧ p g' ≠ centroid_of_four 1000 0 0 0 - 2000.
Proof.
  split; [lia|]. eexists. split; [reflexivity|]. by repeat split.
Qed.

(** C3. From a state with mode other than STOPPED, no collision latched and
    both wheel speeds positive, a collision check that samples a pressed
    bump sensor (left or right) turns the motors off, sets the mode to
    STOPPED and latches the collision; a collision check that samples both
    sensors released while the collision is latched clears the latch and
    leaves the mode (and every other variable) as it was. *)
Theorem check_collisions_rising_and_falling_edge (w : World) (g : Globals) :
  (current_mode g ≠ MODE_STOPPED →
   collision_detected g = false →
   0 < _left_speed (motors g) →
   0 < _right_speed (motors g) →
   left_is_pressed w || right_is_pressed w = true →
   ∃ g', check_collisions w g = (true, g')
         ∧ motors g' = off
         ∧ current_mode g' = MODE_STOPPED
         ∧ collision_detected g' = true)
  ∧
  (collision_detected g = true →
   left_is_pressed w = false →
   right_is_pressed w = false →
   check_collisions w g = (false, with_collision false g)
   ∧ current_mode (with_collision false g) = current_mode g).
Proof.
  split.
  - intros Hmode Hlatch Hl Hr Hbump. unfold check_collisions.
    rewrite Hbump, Hlatch. cbn [negb with_collision current_mode motors].
    rewrite bool_decide_eq_false_2 by done.
    apply Z.ltb_lt in Hl, Hr. rewrite Hl, Hr. cbn.
    eexists. split; [reflexivity|]. by cbn.
  - intros Hlatch Hl Hr. unfold check_collisions.
    by rewrite Hl, Hr, Hlatch.
Qed.

Lemma check_collisions_rising_and_falling_edge_witness :
  (∃ g', check_collisions bumped following = (true, g')
         ∧ motors g' = off
         ∧ current_mode g' = MODE_STOPPED
         ∧ collision_detected g' = true)
  ∧ check_collisions released (with_collision true following)
    = (false, with_collision false (with_collision true following)).
Proof.
  split.
  - apply (check_collisions_rising_and_falling_edge bumped following);
      [discriminate | reflexivity | reflexivity | reflexivity | reflexivity].
  - apply (check_collisions_rising_and_falling_edge released
             (with_collision true following)); reflexivity.
Defined.

(** C4. Started from any state, the calibration sequence ends, when none of
    its 106 driver calls fails, with calibrated = true and mode =
    LINE_FOLLOWING and returns the success response; when a driver call
    fails it ends with calibrated = false and mode = STOPPED and returns a
    response that carries the description of the fault.  Nothing else sets
    the flag: a dispatched command other than LINE CALIBRATE, the collision
    check, a line-following step and the periodic status report all leave
    calibrated as it was. *)
Theorem calibration_outcome (w : World) (g : Globals) :
  (fault_free (driver_fault w) 0 106 →
   ∃ g', calibrate_line_sensors w g
           = ("LINE_SENSORS:CALIBRATED_AND_FOLLOWING", g')
         ∧ line_calibrated g' = true
         ∧ current_mode g' = MODE_LINE_FOLLOWING)
  ∧ (∀ k msg, (k < 106)%nat → first_fault_at (driver_fault w) 0 k msg →
     ∃ g', calibrate_line_sensors w g
             = ("ERROR:CALIBRATION_FAILED (" +:+ msg +:+ ")", g')
           ∧ line_calibrated g' = false
           ∧ current_mode g' = MODE_STOPPED)
  ∧ (∀ command response g',
       process_command w g command = Ok (response, g') →
       requests_calibration (tokens command) = false →
       line_calibrated g' = line_calibrated g)
  ∧ line_calibrated (check_collisions w g).2 = line_calibrated g
  ∧ (∀ g', follow_line w g = Ok g' → line_calibrated g' = line_calibrated g)
  ∧ line_calibrated (cmd_status w g).2 = line_calibrated g.
Proof.
  repeat split.
  - intros Hfree.
    destruct (calibrate_line_sensors_succeeds w g Hfree) as [mot ->].
    by eexists.
  - intros k msg Hk Hfault.
    destruct (calibrate_line_sensors_fails w g k msg Hk Hfault) as [mot ->].
    by eexists.
  - intros command response g'. apply process_command_keeps_calibrated.
  - unfold check_collisions.
    destruct (left_is_pressed w || right_is_pressed w),
      (collision_detected g) eqn:Hlatch; cbn; try done.
    by destruct (bool_decide (current_mode g = MODE_STOPPED)),
      (0 <? _left_speed (motors g)), (0 <? _right_speed (motors g)).
  - unfold follow_line. intros g'.
    destruct (estimate_position (p g) (read_calibrated w)); [|done].
    by intros [= <-].
Qed.

Lemma calibration_outcome_witness :
  (∃ g', calibrate_line_sensors nothing_seen following
           = ("LINE_SENSORS:CALIBRATED_AND_FOLLOWING", g')
         ∧ line_calibrated g' = true
         ∧ current_mode g' = MODE_LINE_FOLLOWING)
  ∧ (∃ g', calibrate_line_sensors fault_at_30 following
             = ("ERROR:CALIBRATION_FAILED (EIO)", g')
           ∧ line_calibrated g' = false
           ∧ current_mode g' = MODE_STOPPED)
  ∧ line_calibrated (with_speed SPEED_LEVEL_2 RobotNode.initial)
    = line_calibrated RobotNode.initial.
Proof.
  destruct (calibration_outcome nothing_seen following) as (Hsuccess & _).
  destruct (calibration_outcome fault_at_30 following) as (_ & Hfault & _).
  destruct (calibration_outcome nothing_seen RobotNode.initial)
    as (_ & _ & Hkeep & _).
  split; [|split].
  - apply Hsuccess. by intros j _.
  - apply (Hfault 30%nat "EIO"); [lia|].
    split; [reflexivity|]. intros j Hj. cbn. case_decide; [lia|done].
  - apply (Hkeep "speed 2" "SPEED_SET:2 (1250)"); reflexivity.
Defined.

(** C5 (as amended).  Frame reassembly is invariant under fragmentation as
    long as no pass of the serial block ends in a fault: when a byte
    sequence arrives split over any number of reads, each of which decodes
    and none of which hands [process_command] a frame that raises, the
    frames dispatched in order and the partial fragment left in the buffer
    are those of one single read of the whole sequence, whatever the sensors
    and the robot state are at the time.  Starting from a buffer that holds
    no newline, these frames are the complete newline-terminated frames of
    the buffered text followed by the sequence, stripped, blank ones
    skipped, and the fragment left is the text behind the last newline. *)
Theorem frame_reassembly_without_fault (g g1 : Globals) (w1 : World)
    (rx_buffer : string) (passes : list (World * string)) :
  rc_fault (receive_all g rx_buffer passes) = None →
  let split_up := receive_all g rx_buffer passes in
  let at_once := serial_receive w1 g1 rx_buffer (joined (passes.*2)) in
  let pieces := split_on LF (rx_buffer +:+ joined (passes.*2)) in
  rc_dispatched at_once = rc_dispatched split_up
  ∧ rc_buffer at_once = rc_buffer split_up
  ∧ rc_fault at_once = None
  ∧ (contains LF rx_buffer = false →
     rc_dispatched split_up
       = filter (λ cmd, truthy cmd = true) (strip <$> removelast pieces)
     ∧ rc_buffer split_up = List.last pieces "").
Proof.
  intros Hfault split_up at_once pieces.
  pose proof (receive_all_summary g rx_buffer passes) as Hsplit.
  unfold summary in Hsplit. rewrite Hfault in Hsplit.
  rewrite bool_decide_eq_false_2 in Hsplit by (by intros [? ?]).
  symmetry in Hsplit. apply receive_text_all_joined in Hsplit.
  fold split_up in Hsplit.
  split; [|split; [|split]].
  - pose proof (serial_receive_summary w1 g1 rx_buffer (joined (passes.*2)))
      as Hone.
    rewrite Hsplit in Hone. by injection Hone.
  - pose proof (serial_receive_summary w1 g1 rx_buffer (joined (passes.*2)))
      as Hone.
    rewrite Hsplit in Hone. by injection Hone.
  - pose proof (serial_receive_summary w1 g1 rx_buffer (joined (passes.*2)))
      as Hone.
    rewrite Hsplit in Hone. injection Hone as _ _ Hf.
    apply bool_decide_eq_false in Hf. fold at_once in Hf.
    destruct (rc_fault at_once); [|done]. by destruct Hf.
  - intros Hbuffer. revert Hsplit. unfold receive_text. fold pieces.
    destruct (truthy (joined (passes.*2))) eqn:Hdata.
    + destruct (utf8_check (joined (passes.*2))); [|done].
      pose proof (scan_without_fault (removelast pieces)) as Hscan.
      destruct (scan (removelast pieces)) as [frames fault].
      intros [= <- <- ->]. split; [by apply Hscan|done].
    + intros [= <- <-]. subst pieces.
      apply truthy_false in Hdata as ->.
      by rewrite append_empty_r, split_on_without.
Qed.

Lemma frame_reassembly_without_fault_witness :
  let passes :=
    [ (released, "PI"); (bumped, "NG" +:+ newline +:+ " for");
      (released, ""); (released, "ward " +:+ newline +:+ "STA") ] in
  let whole := "PING" +:+ newline +:+ " forward " +:+ newline +:+ "STA" in
  rc_dispatched (serial_receive released following "" whole)
  = rc_dispatched (receive_all RobotNode.initial "" passes)
  ∧ rc_buffer (serial_receive released following "" whole)
    = rc_buffer (receive_all RobotNode.initial "" passes)
  ∧ rc_fault (serial_receive released following "" whole) = None
  ∧ (contains LF "" = false →
     rc_dispatched (receive_all RobotNode.initial "" passes)
       = ["PING"; "forward"]
     ∧ rc_buffer (receive_all RobotNode.initial "" passes) = "STA").
Proof.
  intros passes whole.
  refine (frame_reassembly_without_fault RobotNode.initial following released
            "" passes _).
  reflexivity.
Defined.

(** C5, the claim as worded fails: a frame that raises empties the whole
    buffer.  The bytes of the two frames STATUS X and PING, read at once,
    lead to the dispatch of STATUS X alone; read in two parts, the second
    starting inside PING, they lead to the dispatch of STATUS X and of NG,
    which is no frame of the sequence.  (Frames lose the white space around
    them, not only the newline, and blank frames are passed over.) *)
Lemma frame_reassembly_depends_on_fragmentation_after_fault :
  let whole := "STATUS X" +:+ newline +:+ "PING" +:+ newline in
  let first := "STATUS X" +:+ newline +:+ "PI" in
  let second := "NG" +:+ newline in
  joined [first; second] = whole
  ∧ removelast (split_on LF whole) = ["STATUS X"; "PING"]
  ∧ rc_dispatched (serial_receive released RobotNode.initial "" whole)
    = ["STATUS X"]
  ∧ rc_dispatched
      (receive_all RobotNode.initial "" [(released, first); (released, second)])
    = ["STATUS X"; "NG"]
  ∧ rc_dispatched (serial_receive released RobotNode.initial "" whole)
    ≠ rc_dispatched
        (receive_all RobotNode.initial ""
           [(released, first); (released, second)])
  ∧ rc_dispatched
      (serial_receive released RobotNode.initial ""
         (" forward " +:+ newline +:+ newline))
    = ["forward"].
Proof. by repeat split. Qed.

(** C6. Dispatching FORWARD while a collision is latched answers
    ERROR:COLLISION_DETECTED and leaves every variable and the motors as
    they were; dispatching FORWARD while no collision is latched sets the
    mode to MANUAL and both wheel speeds to the current speed. *)
Theorem forward_collision_interlock (w : World) (g : Globals) :
  (collision_detected g = true →
   process_command w g "FORWARD" = Ok ("ERROR:COLLISION_DETECTED", g))
  ∧
  (collision_detected g = false →
   ∃ g', process_command w g "FORWARD"
           = Ok ("MOVING:FORWARD at speed " +:+ str_int (current_speed g), g')
         ∧ current_mode g' = MODE_MANUAL
         ∧ motors g' = set_speeds (current_speed g) (current_speed g)
         ∧ current_speed g' = current_speed g
         ∧ collision_detected g' = false
         ∧ line_calibrated g' = line_calibrated g).
Proof.
  rewrite process_command_tokens.
  change (tokens "FORWARD") with ["FORWARD"]. cbv beta iota.
  rewrite COMMANDS_FORWARD. cbn [take call]. unfold cmd_forward.
  split; intros Hlatch; rewrite Hlatch; cbn [negb].
  - done.
  - eexists. split; [reflexivity|]. by cbn.
Qed.

Lemma forward_collision_interlock_witness :
  process_command bumped (with_collision true following) "FORWARD"
    = Ok ("ERROR:COLLISION_DETECTED", with_collision true following)
  ∧ ∃ g', process_command released RobotNode.initial "FORWARD"
            = Ok ("MOVING:FORWARD at speed 1000", g')
          ∧ current_mode g' = MODE_MANUAL
          ∧ motors g' = set_speeds 1000 1000
          ∧ current_speed g' = 1000
          ∧ collision_detected g' = false
          ∧ line_calibrated g' = false.
Proof.
  split.
  - apply (forward_collision_interlock bumped (with_collision true following)).
    reflexivity.
  - apply (forward_collision_interlock released RobotNode.initial).
    reflexivity.
Defined.

(** C7. A line-following step on the all-zero reading vector with a
    negative previous error raises nothing and uses the position estimate
    l = 0: the no-line branch is taken, ahead of the weighted-centroid
    division.  That division never lets a fault out: on every five-reading
    vector the position estimate is a value. *)
Theorem follow_line_no_line_no_division (w : World) (g : Globals) :
  (read_calibrated w = [0; 0; 0; 0; 0] →
   p g < 0 →
   estimate_position (p g) (read_calibrated w) = Ok 0
   ∧ ∃ g', follow_line w g = Ok g' ∧ p g' = 0 - 2000)
  ∧ (∀ v0 v1 v2 v3 v4 : Z,
       ∃ l, estimate_position (p g) [v0; v1; v2; v3; v4] = Ok l).
Proof.
  split.
  - intros Hread Hprev. unfold follow_line. rewrite Hread.
    assert (estimate_position (p g) [0; 0; 0; 0; 0] = Ok 0) as Hl.
    { unfold estimate_position. cbn.
      apply Z.ltb_lt in Hprev. by rewrite Hprev. }
    rewrite Hl. split; [done|]. by eexists.
  - intros v0 v1 v2 v3 v4.
    destruct (decide (v1 < 700 ∧ v2 < 700 ∧ v3 < 700)) as [(H1 & H2 & H3)|Hseen].
    + unfold estimate_position.
      cbn [getitem lookup list_lookup mbind result_bind].
      apply Z.ltb_lt in H1, H2, H3. rewrite H1, H2, H3. by eexists.
    + rewrite estimate_position_line_seen by done. by eexists.
Qed.

Lemma follow_line_no_line_no_division_witness :
  estimate_position (p drifting_left) (read_calibrated nothing_seen) = Ok 0
  ∧ ∃ g', follow_line nothing_seen drifting_left = Ok g' ∧ p g' = 0 - 2000.
Proof.
  apply (follow_line_no_line_no_division nothing_seen drifting_left);
    [reflexivity | reflexivity].
Defined.

(** C9. After every collision check the latch equals the sampled
    disjunction of the two bump sensors.  The check forces the emergency
    stop (motors off, mode STOPPED, result [True]) exactly when a sensor is
    pressed, the collision was not latched before, the mode is not STOPPED
    and both wheel speeds are positive; in every other case the mode and
    the motors are left as they were, so the latch is set on a rising edge
    also when the robot is stopped or not moving forward. *)
Theorem check_collisions_latch_tracks_bump (w : World) (g : Globals) :
  let pressed := left_is_pressed w || right_is_pressed w in
  let stop :=
    pressed && negb (collision_detected g)
    && negb (bool_decide (current_mode g = MODE_STOPPED))
    && (0 <? _left_speed (motors g)) && (0 <? _right_speed (motors g)) in
  let '(stopped, g') := check_collisions w g in
  collision_detected g' = pressed
  ∧ stopped = stop
  ∧ (if stop
     then motors g' = off ∧ current_mode g' = MODE_STOPPED
     else motors g' = motors g ∧ current_mode g' = current_mode g).
Proof.
  unfold check_collisions.
  destruct (left_is_pressed w || right_is_pressed w),
    (collision_detected g) eqn:Hlatch; cbn; try done.
  destruct (bool_decide (current_mode g = MODE_STOPPED)),
    (0 <? _left_speed (motors g)), (0 <? _right_speed (motors g)); by cbn.
Qed.

(** C10. [main] runs the full calibration sequence before the loop: the
    state in which the loop is entered depends on every one of the 106
    driver calls of the sweep (three spins, each a speed command, 25, 50 and
    25 calibration samples, and a stop).  When none of them fails, the loop
    is entered with calibrated = true and mode = LINE_FOLLOWING (not the
    initial STOPPED), the wheels stopped by the last call of the sweep, and
    the first pass of the loop, with no bump sensor pressed and nothing
    received, is already a line-following step.  When call k is the first to
    fail, the loop is entered uncalibrated, in mode STOPPED, with the wheels
    as the k calls before it left them. *)
Theorem boot_enters_line_following (w : World) :
  (fault_free (driver_fault w) 0 106 →
   line_calibrated (globals (boot w)) = true
   ∧ current_mode (globals (boot w)) = MODE_LINE_FOLLOWING
   ∧ collision_detected (globals (boot w)) = false
   ∧ motors (globals (boot w)) = after_calls sweep_effects off
   ∧ motors (globals (boot w)) = off
   ∧ rx_buffer (boot w) = ""
   ∧ ∀ w1,
       left_is_pressed w1 = false →
       right_is_pressed w1 = false →
       uart_read w1 = "" →
       loop_iteration w1 (boot w)
       = (g1 ← follow_line w1 (globals (boot w));
          Ok {| globals := g1; rx_buffer := ""; counter := 1;
                uart_written := uart_written (boot w) |}))
  ∧ (∀ k msg,
       (k < 106)%nat →
       first_fault_at (driver_fault w) 0 k msg →
       line_calibrated (globals (boot w)) = false
       ∧ current_mode (globals (boot w)) = MODE_STOPPED
       ∧ motors (globals (boot w)) = after_calls (take k sweep_effects) off).
Proof.
  destruct (calibration_sweep_runs (driver_fault w)
              {| hw_motors := off; hw_calls := 0 |}) as [Hok Hraise].
  rewrite sweep_effects_length in Hok, Hraise.
  unfold boot, calibrate_line_sensors.
  cbn [motors with_motors with_mode]. split.
  - intros Hfree. rewrite (Hok Hfree). cbn [hw_motors].
    do 6 (split; [done|]).
    intros w1 Hl Hr Hrx. unfold loop_iteration, check_collisions, serial_receive.
    rewrite Hl, Hr, Hrx. reflexivity.
  - intros k msg Hk Hfault. by rewrite (Hraise k msg Hk Hfault).
Qed.

Lemma boot_enters_line_following_witness :
  (line_calibrated (globals (boot released)) = true
   ∧ current_mode (globals (boot released)) = MODE_LINE_FOLLOWING
   ∧ collision_detected (globals (boot released)) = false
   ∧ motors (globals (boot released)) = after_calls sweep_effects off
   ∧ motors (globals (boot released)) = off
   ∧ rx_buffer (boot released) = ""
   ∧ ∀ w1,
       left_is_pressed w1 = false →
       right_is_pressed w1 = false →
       uart_read w1 = "" →
       loop_iteration w1 (boot released)
       = (g1 ← follow_line w1 (globals (boot released));
          Ok {| globals := g1; rx_buffer := ""; counter := 1;
                uart_written := uart_written (boot released) |}))
  ∧ (line_calibrated (globals (boot fault_at_30)) = false
     ∧ current_mode (globals (boot fault_at_30)) = MODE_STOPPED
     ∧ motors (globals (boot fault_at_30))
       = after_calls (take 30 sweep_effects) off).
Proof.
  destruct (boot_enters_line_following released) as [Hok _].
  destruct (boot_enters_line_following fault_at_30) as [_ Hfault].
  split.
  - apply Hok. by intros j _.
  - apply (Hfault 30%nat "EIO"); [lia|].
    split; [reflexivity|]. intros j Hj. cbn. case_decide; [lia|done].
Defined.

End RobotProperties.

(** ** Properties of the bridge node *)

Module BridgeProperties.

Import BridgeNode BridgeSpec.

(** C8 (as amended).  On the bridge node, the text of every non-empty read
    from the serial link that decodes (stripped; one complete line when the
    read returns exactly one line) is recorded as the last response.  While
    the connected flag is set it is, prefixed with the robot-origin marker
    'Robot: ', cached as the value of the read characteristic and notified
    to every connection of the connection set; while the flag is clear it
    is neither cached nor notified. *)
Theorem robot_response_relayed_while_connected (g : Globals)
    (self : BLEUARTBridge) (pending : string) :
  ble_service g = Some self →
  truthy pending = true →
  utf8_check pending = true →
  let message := "Robot: " +:+ strip pending in
  let received := (check_for_robot_response pending g).1 in
  let g' := (check_for_robot_response pending g).2 in
  received = true
  ∧ last_response g' = strip pending
  ∧ if is_connected g then
      ∃ self', ble_service g' = Some self'
               ∧ tx_value self' = message
               ∧ _connections self' = _connections self
               ∧ notified self'
                 = notified self ++ fan_out (_connections self) message
               ∧ ∀ conn_handle, conn_handle ∈ _connections self →
                   (conn_handle, message) ∈ notified self'
    else ble_service g' = Some self.
Proof.
  intros Hservice Hpending Hutf message.
  unfold check_for_robot_response, decode.
  rewrite Hpending, Hutf, Hservice.
  destruct (is_connected g); cbn; [|done].
  repeat split. eexists. repeat split.
  intros conn_handle Hconn. cbn.
  apply elem_of_app. right.
  apply (list_elem_of_fmap_2 (λ h, (h, message))).
  by apply elem_of_elements.
Qed.

Lemma robot_response_relayed_while_connected_witness :
  let message := "Robot: PONG" in
  let g' := (check_for_robot_response ("PONG" +:+ newline) two_centrals).2 in
  (check_for_robot_response ("PONG" +:+ newline) two_centrals).1 = true
  ∧ last_response g' = "PONG"
  ∧ ∃ self', ble_service g' = Some self'
             ∧ tx_value self' = message
             ∧ _connections self' = {[7]} ∪ ({[3]} ∪ ∅)
             ∧ notified self'
               = [] ++ fan_out ({[7]} ∪ ({[3]} ∪ ∅)) message
             ∧ ∀ conn_handle, conn_handle ∈ ({[7]} ∪ ({[3]} ∪ ∅) : gset Z) →
                 (conn_handle, message) ∈ notified self'.
Proof.
  refine (robot_response_relayed_while_connected two_centrals
            {| _connections := {[7]} ∪ ({[3]} ∪ ∅);
               tx_value := "Robot Bridge Ready"; notified := [] |}
            ("PONG" +:+ newline) _ _ _); reflexivity.
Defined.

(** C8, the claim as worded fails.  With no central connected (as when the
    robot answers the ping the bridge sends at start-up) the line is not
    cached as the value of the read characteristic, which keeps its
    previous content.  And the bridge relays reads, not lines: with two
    centrals connected, the line PONG arriving in two reads is notified as
    two messages and never as one. *)
Lemma robot_response_not_relayed_line_by_line :
  (∃ g' self',
     check_for_robot_response ("PONG" +:+ newline) BridgeNode.initial
       = (true, g')
     ∧ last_response g' = "PONG"
     ∧ ble_service g' = Some self'
     ∧ tx_value self' = "Robot Bridge Ready"
     ∧ tx_value self' ≠ "Robot: PONG")
  ∧ (let g1 := (check_for_robot_response "PO" two_centrals).2 in
     let g2 := (check_for_robot_response ("NG" +:+ newline) g1).2 in
     ∃ self2,
       ble_service g2 = Some self2
       ∧ tx_value self2 = "Robot: NG"
       ∧ notified self2
         = [ (7, "Robot: PO"); (3, "Robot: PO");
             (7, "Robot: NG"); (3, "Robot: NG") ]).
Proof.
  split.
  - do 2 eexists. by repeat split.
  - eexists. by repeat split.
Qed.

End BridgeProperties.

(** ** Further facts about text *)

Section MoreText.

Lemma toupper_is_space c : Ascii.is_space (toupper c) = Ascii.is_space c.
Proof. by destruct c as [[] [] [] [] [] [] [] []]. Qed.

Lemma toupper_idemp c : toupper (toupper c) = toupper c.
Proof. by destruct c as [[] [] [] [] [] [] [] []]. Qed.

Lemma upper_idemp s : upper (upper s) = upper s.
Proof.
  induction s as [|c s IH]; [done|]. cbn [upper].
  by rewrite toupper_idemp, IH.
Qed.

Lemma upper_lstrip s : upper (lstrip s) = lstrip (upper s).
Proof.
  induction s as [|c s IH]; [done|]. cbn [upper lstrip].
  rewrite toupper_is_space. by destruct (Ascii.is_space c).
Qed.

Lemma upper_rstrip s : upper (rstrip s) = rstrip (upper s).
Proof.
  induction s as [|c s IH]; [done|]. cbn [upper rstrip].
  rewrite <- IH, toupper_is_space.
  destruct (rstrip s) as [|c' r]; [|done].
  by destruct (Ascii.is_space c).
Qed.

Lemma upper_strip s : upper (strip s) = strip (upper s).
Proof. unfold strip. by rewrite upper_rstrip, upper_lstrip. Qed.

Lemma rstrip_idemp s : rstrip (rstrip s) = rstrip s.
Proof.
  induction s as [|c s IH]; [done|]. cbn [rstrip].
  destruct (rstrip s) as [|c' r] eqn:Hr.
  - destruct (Ascii.is_space c) eqn:Hc; [done|]. cbn [rstrip]. by rewrite Hc.
  - cbn [rstrip] in *. by rewrite IH.
Qed.

Lemma lstrip_rstrip_lstrip s : lstrip (rstrip (lstrip s)) = rstrip (lstrip s).
Proof.
  induction s as [|c s IH]; [done|]. cbn [lstrip].
  destruct (Ascii.is_space c) eqn:Hc; [done|].
  cbn [rstrip]. destruct (rstrip s); rewrite ?Hc; cbn [lstrip]; by rewrite Hc.
Qed.

Lemma strip_idemp s : strip (strip s) = strip s.
Proof. unfold strip. by rewrite lstrip_rstrip_lstrip, rstrip_idemp. Qed.

Lemma endswith_char_append c s : endswith_char c (s +:+ String c "") = true.
Proof.
  induction s as [|x s IH].
  - cbn. apply Ascii.eqb_refl.
  - rewrite append_cons. cbn [endswith_char].
    destruct (s +:+ String c "") eqn:Hs; [by destruct s|done].
Qed.

Lemma last_split_on_without sep s :
  contains sep (List.last (split_on sep s) "") = false.
Proof.
  induction s as [|c s IH]; [done|]. cbn [split_on].
  destruct (Ascii.eqb c sep) eqn:Hc.
  - pose proof (split_on_not_nil sep s).
    by destruct (split_on sep s).
  - destruct (split_on sep s) as [|t [|t2 ts]] eqn:Hs.
    + by apply split_on_not_nil in Hs.
    + cbn [List.last] in *. cbn [contains]. by rewrite Hc, IH.
    + done.
Qed.

Lemma rstrip_append_space c s :
  Ascii.is_space c = true → rstrip (s +:+ String c "") = rstrip s.
Proof.
  intros Hc. induction s as [|x s IH].
  - rewrite append_empty_l. cbn [rstrip]. by rewrite Hc.
  - rewrite append_cons. cbn [rstrip]. by rewrite IH.
Qed.

Lemma strip_append_space c s :
  Ascii.is_space c = true → strip (s +:+ String c "") = strip s.
Proof.
  intros Hc. unfold strip. induction s as [|x s IH].
  - rewrite append_empty_l. cbn [lstrip]. by rewrite Hc.
  - rewrite append_cons. cbn [lstrip].
    destruct (Ascii.is_space x); [done|].
    rewrite <- append_cons. by apply rstrip_append_space.
Qed.

Lemma utf8_check_newline s :
  utf8_check s = true → utf8_check (s +:+ newline) = true.
Proof. intros Hs. by apply utf8_check_append. Qed.

End MoreText.

(** ** Further properties of the robot-control node *)

Module RobotMore.

Import RobotNode RobotSpec RobotRun RobotProperties.

(** *** What is kept by dispatch, by the serial block and by the loop *)

Lemma process_command_handlers (Q : Globals → Prop) w g command response g' :
  Q g →
  handlers_all (λ h, Q (h w g).2) →
  process_command w g command = Ok (response, g') →
  Q g'.
Proof.
  intros Hg (Hst & Hf & Hb & Hl & Hr & Hs & Hsp & Hline & Hhb).
  rewrite process_command_tokens.
  destruct (tokens command) as [|base_cmd params]; [done|].
  destruct (COMMANDS !! base_cmd) as [e|] eqn:Hlookup; [|by intros [= _ <-]].
  apply COMMANDS_inv in Hlookup.
  repeat (apply elem_of_cons in Hlookup as [Heq|Hlookup];
          [simplify_eq|]);
    [..|by apply elem_of_nil in Hlookup];
    destruct params as [|param params]; cbn [take call];
    try discriminate; intros Hcall; injection Hcall as Hcall;
    try (by subst);
    match goal with
    | Hbody : _ = (response, g') |- _ =>
        change g' with (response, g').2; rewrite <- Hbody
    end; done.
Qed.

Lemma for_commands_kept (I : Globals → Prop) w commands g :
  (∀ g, I g → handlers_all (λ h, I (h w g).2)) →
  I g →
  I (dr_globals (for_commands w g commands)).
Proof.
  intros Hkept. revert g.
  induction commands as [|cmd rest IH]; intros g Hg; [done|].
  cbn [for_commands]. destruct (truthy (strip cmd)); [|by apply IH].
  destruct (process_command w g (strip cmd)) as [[response g']|e] eqn:Hcmd;
    [|done].
  cbn [dr_globals]. apply IH.
  by eapply process_command_handlers; [| apply Hkept |].
Qed.

Lemma serial_receive_kept (I : Globals → Prop) w g rx_buffer data :
  (∀ g, I g → handlers_all (λ h, I (h w g).2)) →
  I g →
  I (rc_globals (serial_receive w g rx_buffer data)).
Proof.
  intros Hkept Hg. unfold serial_receive.
  destruct (truthy data); [|done].
  destruct (decode data); [|done].
  destruct (contains LF _); [|done].
  cbn [rc_globals]. by apply for_commands_kept.
Qed.

Lemma loop_iteration_kept (I : Globals → Prop) w s s' :
  kept_by_program I →
  I (globals s) →
  loop_iteration w s = Ok s' →
  I (globals s').
Proof.
  intros (Hhandlers & Hcheck & Hfollow) Hs. unfold loop_iteration.
  pose proof (Hcheck w (globals s) Hs) as H1.
  destruct (check_collisions w (globals s)) as [stopped g1]. cbn [snd] in H1.
  pose proof (serial_receive_kept I w g1 (rx_buffer s) (uart_read w)
                (Hhandlers w) H1) as H2.
  set (r := serial_receive w g1 (rx_buffer s) (uart_read w)) in *.
  assert (∀ g3,
            (if bool_decide (current_mode (rc_globals r) = MODE_LINE_FOLLOWING)
                && line_calibrated (rc_globals r)
                && negb (collision_detected (rc_globals r))
             then follow_line w (rc_globals r) else Ok (rc_globals r)) = Ok g3 →
            I g3) as H3.
  { intros g3. destruct (_ && _ && _); [by apply Hfollow|by intros [= <-]]. }
  destruct (if _ && _ && _ then _ else _) as [g3|e]; [|done].
  specialize (H3 g3 eq_refl). cbn [mbind result_bind].
  destruct (Hhandlers w g3 H3) as (Hst & _).
  destruct (600 <=? counter s + 1); by intros [= <-].
Qed.

Lemma run_loop_kept (I : Globals → Prop) ws s s' :
  kept_by_program I →
  I (globals s) →
  run_loop ws s = Ok s' →
  I (globals s').
Proof.
  intros Hkept. revert s.
  induction ws as [|w ws IH]; intros s Hs; cbn [run_loop].
  - by intros [= <-].
  - destruct (loop_iteration w s) as [s1|e] eqn:H1; [|done].
    cbn [mbind result_bind]. apply IH.
    by eapply loop_iteration_kept.
Qed.

Lemma boot_kept (I : Globals → Prop) w :
  kept_by_program I → I RobotNode.initial → I (globals (boot w)).
Proof.
  intros (Hhandlers & _) H0. unfold boot.
  destruct (Hhandlers w _ H0) as (_ & _ & _ & _ & _ & _ & _ & Hline & _).
  specialize (Hline "CALIBRATE").
  change (cmd_line_follow "CALIBRATE" w RobotNode.initial)
    with (calibrate_line_sensors w RobotNode.initial) in Hline.
  by destruct (calibrate_line_sensors w RobotNode.initial).
Qed.

(** Unfolds the functions of the command table and splits on every test
    they make. *)
Ltac handlers :=
  repeat split; intros;
  unfold cmd_status, cmd_forward, cmd_backward, cmd_left, cmd_right, cmd_stop,
    cmd_speed, cmd_line_follow, cmd_heartbeat, calibrate_line_sensors in *;
  repeat case_match; cbn in *; try done.

Lemma speed_in_table_kept : kept_by_program speed_in_table.
Proof.
  unfold speed_in_table. split; [|split].
  - intros w g Hg. handlers; simplify_eq; auto.
  - intros w g Hg. unfold check_collisions. by repeat case_match.
  - intros w g g' Hg. unfold follow_line.
    destruct (estimate_position _ _); [|done]. by intros [= <-].
Qed.

Lemma following_is_calibrated_kept : kept_by_program following_is_calibrated.
Proof.
  unfold following_is_calibrated. split; [|split].
  - intros w g Hg. handlers; intuition congruence.
  - intros w g Hg. unfold check_collisions. by repeat case_match.
  - intros w g g' Hg. unfold follow_line.
    destruct (estimate_position _ _); [|done]. by intros [= <-].
Qed.

(** *** Command text *)

Lemma tokens_insensitive c1 c2 :
  strip (upper c1) = strip (upper c2) → tokens c1 = tokens c2.
Proof. unfold tokens. rewrite !upper_strip. by intros ->. Qed.

(** X1. Commands that differ only in letter case and in the white space
    around them are answered alike, with the same effect on the state. *)
Theorem process_command_ignores_case_and_padding w g (c1 c2 : string) :
  strip (upper c1) = strip (upper c2) →
  process_command w g c1 = process_command w g c2.
Proof.
  intros Hsame. rewrite !process_command_tokens.
  by rewrite (tokens_insensitive c1 c2).
Qed.

Lemma process_command_ignores_case_and_padding_witness :
  process_command released following "  line Stop "
  = process_command released following "LINE STOP".
Proof.
  apply (process_command_ignores_case_and_padding released following).
  reflexivity.
Defined.

(** X2. Only the command name and the first parameter are read: commands
    whose first two tokens agree are answered alike, whatever follows. *)
Theorem process_command_reads_two_tokens w g (c1 c2 : string) :
  take 2 (tokens c1) = take 2 (tokens c2) →
  process_command w g c1 = process_command w g c2.
Proof.
  rewrite !process_command_tokens.
  destruct (tokens c1) as [|b1 [|p1 r1]], (tokens c2) as [|b2 [|p2 r2]];
    cbn [take]; intros Heq; by simplify_eq.
Qed.

Lemma process_command_reads_two_tokens_witness :
  process_command released following "SPEED 3 now please"
  = process_command released following "speed 3".
Proof.
  apply (process_command_reads_two_tokens released following).
  reflexivity.
Defined.

(** X3. A command changes the state of the robot only if its name is one
    of FORWARD, BACKWARD, LEFT, RIGHT, STOP, SPEED and LINE: PING, STATUS,
    HEARTBEAT and every unknown name leave all variables and the motors as
    they were. *)
Theorem process_command_changes_state_only_for w g command base_cmd params :
  tokens command = base_cmd :: params →
  bool_decide (base_cmd ∈ state_changing) = false →
  match process_command w g command with
  | Ok (_, g') => g' = g
  | Raise _ => True
  end.
Proof.
  intros Htokens Hname. rewrite process_command_tokens, Htokens.
  destruct (COMMANDS !! base_cmd) as [e|] eqn:Hlookup; [|done].
  apply COMMANDS_inv in Hlookup.
  repeat (apply elem_of_cons in Hlookup as [Heq|Hlookup];
          [simplify_eq|]);
    [..|by apply elem_of_nil in Hlookup];
    try (by vm_compute in Hname);
    by destruct params as [|param params].
Qed.

Lemma process_command_changes_state_only_for_witness :
  match process_command bumped (with_collision true following) "heartbeat 12"
  with
  | Ok (_, g') => g' = with_collision true following
  | Raise _ => True
  end.
Proof.
  apply (process_command_changes_state_only_for bumped
           (with_collision true following) "heartbeat 12" "HEARTBEAT" ["12"]);
    reflexivity.
Defined.

(** X4. Nothing that arrives on the serial link touches the collision
    latch or the memory of the line-following law (p, last_p, line): after
    the serial block, whatever bytes it read, they are as before. *)
Theorem serial_receive_keeps_latch_and_line_memory w g rx_buffer data :
  let g' := rc_globals (serial_receive w g rx_buffer data) in
  collision_detected g' = collision_detected g
  ∧ p g' = p g ∧ last_p g' = last_p g ∧ line g' = line g.
Proof.
  apply (serial_receive_kept
           (λ g', collision_detected g' = collision_detected g
                  ∧ p g' = p g ∧ last_p g' = last_p g ∧ line g' = line g));
    [|done].
  intros g0 (Hc & Hp & Hlp & Hl). handlers.
Qed.

(** X5. The speed magnitude is always one of the three levels 1000, 1250
    and 1500: it is after the boot, whatever the calibration gives, and
    after any number of passes of the main loop, whatever arrives. *)
Theorem speed_always_in_table w ws :
  match run_loop ws (boot w) with
  | Ok s => speed_in_table (globals s)
  | Raise _ => True
  end.
Proof.
  destruct (run_loop ws (boot w)) as [s|e] eqn:Hrun; [|done].
  eapply run_loop_kept; [apply speed_in_table_kept| |done].
  apply boot_kept; [apply speed_in_table_kept|]. by left.
Qed.

(** X6. The robot is in line-following mode only with calibrated sensors:
    after the boot and after any number of passes of the main loop,
    mode = LINE_FOLLOWING implies calibrated = true. *)
Theorem line_following_only_when_calibrated w ws :
  match run_loop ws (boot w) with
  | Ok s => following_is_calibrated (globals s)
  | Raise _ => True
  end.
Proof.
  destruct (run_loop ws (boot w)) as [s|e] eqn:Hrun; [|done].
  eapply run_loop_kept; [apply following_is_calibrated_kept| |done].
  apply boot_kept; [apply following_is_calibrated_kept|]. by intros [=].
Qed.

(** *** Movement commands *)

Lemma COMMANDS_at :
  COMMANDS !! "SPEED" = Some (Callable (Def1 cmd_speed))
  ∧ COMMANDS !! "STOP" = Some (Callable (Def0 cmd_stop))
  ∧ COMMANDS !! "BACKWARD" = Some (Callable (Def0 cmd_backward))
  ∧ COMMANDS !! "LEFT" = Some (Callable (Def0 cmd_left))
  ∧ COMMANDS !! "RIGHT" = Some (Callable (Def0 cmd_right))
  ∧ COMMANDS !! "HEARTBEAT" = Some (Callable (Def1 cmd_heartbeat))
  ∧ COMMANDS !! "LINE" = Some (Callable (Def1_default "" cmd_line_follow)).
Proof. by repeat split. Qed.

(** X7. SPEED with a parameter never raises and never touches the mode or
    the motors.  A parameter that reads as 1, 2 or 3 sets the speed
    magnitude to 1000, 1250 or 1500 and changes nothing else (the wheels
    keep their speeds until the next movement command or line-following
    step); any other parameter is refused with ERROR:INVALID_SPEED_LEVEL and
    the state stays as it was. *)
Theorem speed_command_sets_level_or_refuses w g command level rest :
  tokens command = "SPEED" :: level :: rest →
  ∃ response g',
    process_command w g command = Ok (response, g')
    ∧ ((∃ n v, int level = Ok n
               ∧ (n, v) ∈ [(1, SPEED_LEVEL_1); (2, SPEED_LEVEL_2);
                            (3, SPEED_LEVEL_3)]
               ∧ g' = with_speed v g
               ∧ response
                 = "SPEED_SET:" +:+ str_int n +:+ " (" +:+ str_int v +:+ ")")
       ∨ ((∀ n, int level = Ok n → n ≠ 1 ∧ n ≠ 2 ∧ n ≠ 3)
          ∧ g' = g
          ∧ response = "ERROR:INVALID_SPEED_LEVEL (use 1-3)")).
Proof.
  intros Htokens. rewrite process_command_tokens, Htokens.
  destruct COMMANDS_at as (-> & _). cbn [take call]. unfold cmd_speed.
  destruct (int level) as [n|e]; [|by eexists _, _; split; [|right]].
  destruct (Z.eqb_spec n 1) as [->|H1].
  { eexists _, _. split; [done|]. left. exists 1, SPEED_LEVEL_1.
    repeat split. set_solver. }
  destruct (Z.eqb_spec n 2) as [->|H2].
  { eexists _, _. split; [done|]. left. exists 2, SPEED_LEVEL_2.
    repeat split. set_solver. }
  destruct (Z.eqb_spec n 3) as [->|H3].
  { eexists _, _. split; [done|]. left. exists 3, SPEED_LEVEL_3.
    repeat split. set_solver. }
  eexists _, _. split; [done|]. right. repeat split; by simplify_eq.
Qed.

Lemma speed_command_sets_level_or_refuses_witness :
  (∃ response g',
     process_command released following "speed 4" = Ok (response, g')
     ∧ ((∃ n v, int "4" = Ok n
                ∧ (n, v) ∈ [(1, SPEED_LEVEL_1); (2, SPEED_LEVEL_2);
                             (3, SPEED_LEVEL_3)]
                ∧ g' = with_speed v following
                ∧ response
                  = "SPEED_SET:" +:+ str_int n +:+ " (" +:+ str_int v +:+ ")")
        ∨ ((∀ n, int "4" = Ok n → n ≠ 1 ∧ n ≠ 2 ∧ n ≠ 3)
           ∧ g' = following
           ∧ response = "ERROR:INVALID_SPEED_LEVEL (use 1-3)")))
  ∧ (∃ response g',
       process_command released following "speed 0_2" = Ok (response, g')
       ∧ ((∃ n v, int "0_2" = Ok n
                  ∧ (n, v) ∈ [(1, SPEED_LEVEL_1); (2, SPEED_LEVEL_2);
                               (3, SPEED_LEVEL_3)]
                  ∧ g' = with_speed v following
                  ∧ response
                    = "SPEED_SET:" +:+ str_int n +:+ " (" +:+ str_int v
                        +:+ ")")
          ∨ ((∀ n, int "0_2" = Ok n → n ≠ 1 ∧ n ≠ 2 ∧ n ≠ 3)
             ∧ g' = following
             ∧ response = "ERROR:INVALID_SPEED_LEVEL (use 1-3)"))).
Proof.
  split.
  - apply (speed_command_sets_level_or_refuses released following "speed 4"
             "4" []).
    reflexivity.
  - apply (speed_command_sets_level_or_refuses released following "speed 0_2"
             "0_2" []).
    reflexivity.
Defined.

(** X8. STOP does not end line following.  Dispatched in line-following
    mode it turns the motors off, answers that it resumes, and leaves the
    mode at LINE_FOLLOWING; the next line-following step then gives the very
    state it would have given had STOP not been sent.  Dispatched in any
    other mode it turns the motors off and leaves the mode at STOPPED. *)
Theorem stop_pauses_line_following w w' g :
  (current_mode g = MODE_LINE_FOLLOWING →
   ∃ g1, process_command w g "STOP"
           = Ok ("STOPPED (resuming line following)", g1)
         ∧ current_mode g1 = MODE_LINE_FOLLOWING
         ∧ motors g1 = off
         ∧ follow_line w' g1 = follow_line w' g)
  ∧ (current_mode g ≠ MODE_LINE_FOLLOWING →
     process_command w g "STOP"
     = Ok ("STOPPED", with_motors off (with_mode MODE_STOPPED g))).
Proof.
  rewrite process_command_tokens.
  change (tokens "STOP") with ["STOP"]. cbv beta iota.
  destruct COMMANDS_at as (_ & -> & _). cbn [take call]. unfold cmd_stop.
  split; intros Hmode.
  - rewrite Hmode. eexists. split; [reflexivity|].
    repeat split. unfold follow_line. cbn. by rewrite Hmode.
  - by destruct (current_mode g).
Qed.

Lemma stop_pauses_line_following_witness :
  (∃ g1, process_command released following "STOP"
           = Ok ("STOPPED (resuming line following)", g1)
         ∧ current_mode g1 = MODE_LINE_FOLLOWING
         ∧ motors g1 = off
         ∧ follow_line side_lit g1 = follow_line side_lit following)
  ∧ process_command released RobotNode.initial "STOP"
    = Ok ("STOPPED",
          with_motors off (with_mode MODE_STOPPED RobotNode.initial)).
Proof.
  split.
  - apply (stop_pauses_line_following released side_lit following).
    reflexivity.
  - apply (stop_pauses_line_following released side_lit RobotNode.initial).
    discriminate.
Defined.

(** X9. The collision latch blocks FORWARD only: BACKWARD, LEFT and RIGHT
    are obeyed in every state, latched or not; they set the mode to MANUAL
    and the wheel speeds to the current magnitude with the signs of the
    manoeuvre (both negative, left negative, right negative). *)
Theorem backward_left_right_not_interlocked w g :
  let v := current_speed g in
  process_command w g "BACKWARD"
  = Ok ("MOVING:BACKWARD at speed " +:+ str_int v,
        with_motors (set_speeds (- v) (- v)) (with_mode MODE_MANUAL g))
  ∧ process_command w g "LEFT"
    = Ok ("TURNING:LEFT at speed " +:+ str_int v,
          with_motors (set_speeds (- v) v) (with_mode MODE_MANUAL g))
  ∧ process_command w g "RIGHT"
    = Ok ("TURNING:RIGHT at speed " +:+ str_int v,
          with_motors (set_speeds v (- v)) (with_mode MODE_MANUAL g)).
Proof.
  rewrite !process_command_tokens.
  change (tokens "BACKWARD") with ["BACKWARD"].
  change (tokens "LEFT") with ["LEFT"].
  change (tokens "RIGHT") with ["RIGHT"]. cbv beta iota.
  destruct COMMANDS_at as (_ & _ & -> & -> & -> & _). done.
Qed.

(** *** Collision guard, continued *)

Lemma check_collisions_latch w g :
  collision_detected (check_collisions w g).2
  = left_is_pressed w || right_is_pressed w.
Proof.
  unfold check_collisions.
  destruct (left_is_pressed w || right_is_pressed w),
    (collision_detected g) eqn:Hlatch; cbn; try done.
  by destruct (bool_decide _), (0 <? _), (0 <? _).
Qed.

Lemma check_collisions_line_memory w g :
  p (check_collisions w g).2 = p g
  ∧ last_p (check_collisions w g).2 = last_p g
  ∧ line (check_collisions w g).2 = line g.
Proof. unfold check_collisions. by repeat case_match. Qed.

(** X10. While a bump sensor stays pressed the collision check acts once:
    a second check on the same sample changes nothing and reports no stop,
    and FORWARD dispatched after the check is refused with
    ERROR:COLLISION_DETECTED, state unchanged. *)
Theorem held_bump_acts_once_and_blocks_forward w w' g :
  left_is_pressed w || right_is_pressed w = true →
  let g1 := (check_collisions w g).2 in
  check_collisions w g1 = (false, g1)
  ∧ process_command w' g1 "FORWARD" = Ok ("ERROR:COLLISION_DETECTED", g1).
Proof.
  intros Hbump g1.
  assert (collision_detected g1 = true) as Hlatch.
  { unfold g1. by rewrite check_collisions_latch. }
  split.
  - unfold check_collisions. by rewrite Hbump, Hlatch.
  - rewrite process_command_tokens.
    change (tokens "FORWARD") with ["FORWARD"]. cbv beta iota.
    rewrite COMMANDS_FORWARD. cbn [take call]. unfold cmd_forward.
    by rewrite Hlatch.
Qed.

Lemma held_bump_acts_once_and_blocks_forward_witness :
  let g1 := (check_collisions bumped following).2 in
  check_collisions bumped g1 = (false, g1)
  ∧ process_command released g1 "FORWARD"
    = Ok ("ERROR:COLLISION_DETECTED", g1).
Proof.
  apply (held_bump_acts_once_and_blocks_forward bumped released following).
  reflexivity.
Defined.

(** X11. A pass of the main loop in which a bump sensor is pressed never
    runs the line-following step, whatever arrives on the serial link: the
    pass ends without fault, with the collision latched and the memory of
    the line-following law (p, last_p, line) as it was. *)
Theorem pressed_bump_suspends_line_following w s :
  left_is_pressed w || right_is_pressed w = true →
  ∃ s', loop_iteration w s = Ok s'
        ∧ collision_detected (globals s') = true
        ∧ p (globals s') = p (globals s)
        ∧ last_p (globals s') = last_p (globals s)
        ∧ line (globals s') = line (globals s).
Proof.
  intros Hbump. unfold loop_iteration.
  pose proof (check_collisions_latch w (globals s)) as Hlatch.
  pose proof (check_collisions_line_memory w (globals s)) as Hmem.
  rewrite Hbump in Hlatch.
  destruct (check_collisions w (globals s)) as [stopped g1].
  cbn [snd] in Hlatch, Hmem.
  pose proof (serial_receive_kept
    (λ g', collision_detected g' = true ∧ p g' = p (globals s)
           ∧ last_p g' = last_p (globals s) ∧ line g' = line (globals s))
    w g1 (rx_buffer s) (uart_read w)) as Hkept.
  destruct Hkept as (Hc & Hrest); [|done|].
  { intros g0 (Hc & Hp & Hlp & Hl). handlers. }
  rewrite Hc, andb_false_r. cbn [mbind result_bind].
  destruct (600 <=? counter s + 1); eexists; by split.
Qed.

Lemma pressed_bump_suspends_line_following_witness :
  ∃ s', loop_iteration forward_arrives_bumped (boot released) = Ok s'
        ∧ collision_detected (globals s') = true
        ∧ p (globals s') = p (globals (boot released))
        ∧ last_p (globals s') = last_p (globals (boot released))
        ∧ line (globals s') = line (globals (boot released)).
Proof.
  apply (pressed_bump_suspends_line_following forward_arrives_bumped
           (boot released)).
  reflexivity.
Defined.

(** *** Line following, continued *)

(** X12. For a non-negative speed magnitude, the wheel setpoints of a
    line-following step lie between 0 and that magnitude, and one of the two
    wheels always runs at the full magnitude: the law steers by slowing one
    wheel, never by reversing one. *)
Theorem follow_line_setpoints_bounded w g g' :
  0 ≤ current_speed g →
  follow_line w g = Ok g' →
  0 ≤ _left_speed (motors g') ≤ current_speed g
  ∧ 0 ≤ _right_speed (motors g') ≤ current_speed g
  ∧ Z.max (_left_speed (motors g')) (_right_speed (motors g'))
    = current_speed g.
Proof.
  intros Hbase. unfold follow_line.
  destruct (estimate_position (p g) (read_calibrated w)) as [l|e]; [|done].
  intros [= <-]. cbn [mbind result_bind motors _left_speed _right_speed
                      set_speeds]. lia.
Qed.

Lemma follow_line_setpoints_bounded_witness :
  ∃ g', follow_line side_lit following = Ok g'
        ∧ 0 ≤ _left_speed (motors g') ≤ current_speed following
        ∧ 0 ≤ _right_speed (motors g') ≤ current_speed following
        ∧ Z.max (_left_speed (motors g')) (_right_speed (motors g'))
          = current_speed following.
Proof.
  eexists. split; [reflexivity|].
  apply (follow_line_setpoints_bounded side_lit following);
    [vm_compute; discriminate | reflexivity].
Defined.

(** X13. On five non-negative readings the position estimate lies between
    0 and 4000, so the error lies between -2000 and 2000.  When a line is
    seen (not all three central readings below 700) the sum of the readings
    is positive and the estimate is the weighted sum divided by it: the
    zero-divisor fallback is never used on readings a sensor can give. *)
Theorem estimate_position_in_range prev (v0 v1 v2 v3 v4 : Z) :
  0 ≤ v0 → 0 ≤ v1 → 0 ≤ v2 → 0 ≤ v3 → 0 ≤ v4 →
  ∃ l, estimate_position prev [v0; v1; v2; v3; v4] = Ok l
       ∧ 0 ≤ l ≤ 4000
       ∧ (¬ (v1 < 700 ∧ v2 < 700 ∧ v3 < 700) →
          0 < v0 + v1 + v2 + v3 + v4
          ∧ l = (1000 * v1 + 2000 * v2 + 3000 * v3 + 4000 * v4)
                `div` (v0 + v1 + v2 + v3 + v4)).
Proof.
  intros H0 H1 H2 H3 H4.
  destruct (decide (v1 < 700 ∧ v2 < 700 ∧ v3 < 700)) as [(L1 & L2 & L3)|Hseen].
  - exists (if prev <? 0 then 0 else 4000). split; [|split].
    + unfold estimate_position.
      cbn [getitem lookup list_lookup mbind result_bind].
      apply Z.ltb_lt in L1, L2, L3. by rewrite L1, L2, L3.
    + destruct (prev <? 0); lia.
    + intros Hseen. destruct Hseen. done.
  - rewrite estimate_position_line_seen by done.
    assert (0 < v0 + v1 + v2 + v3 + v4) as Hsum by lia.
    unfold centroid_of_five.
    destruct (Z.eqb_spec (v0 + v1 + v2 + v3 + v4) 0) as [Hz|_]; [lia|].
    eexists. split; [reflexivity|]. split; [|done]. split.
    + apply Z.div_pos; lia.
    + apply Z.div_le_upper_bound; lia.
Qed.

Lemma estimate_position_in_range_witness :
  ∃ l, estimate_position 0 [1000; 1000; 0; 0; 0] = Ok l
       ∧ 0 ≤ l ≤ 4000
       ∧ (¬ (1000 < 700 ∧ 0 < 700 ∧ 0 < 700) →
          0 < 1000 + 1000 + 0 + 0 + 0
          ∧ l = (1000 * 1000 + 2000 * 0 + 3000 * 0 + 4000 * 0)
                `div` (1000 + 1000 + 0 + 0 + 0)).
Proof.
  apply (estimate_position_in_range 0 1000 1000 0 0 0); lia.
Defined.

(** *** The main loop *)

Lemma estimate_position_five prev line :
  (5 ≤ length line)%nat → ∃ l, estimate_position prev line = Ok l.
Proof.
  intros Hlen.
  destruct line as [|v0 [|v1 [|v2 [|v3 [|v4 rest]]]]]; cbn in Hlen; try lia.
  unfold estimate_position, floordiv.
  cbn [getitem lookup list_lookup mbind result_bind].
  destruct (v1 <? 700), (v2 <? 700), (v3 <? 700),
    (sum (v0 :: v1 :: v2 :: v3 :: v4 :: rest) =? 0); by eexists.
Qed.

(** X14. The main loop ends in a fault only through the line sensors: a
    pass in which the driver returns at least five readings ends without
    fault, whatever the state and whatever arrives on the serial link;
    a pass in line-following mode (calibrated, no collision, no bump, nothing
    received) in which it returns fewer than two ends in an IndexError that
    leaves the loop. *)
Theorem loop_iteration_faults_only_on_short_readings w s :
  ((5 ≤ length (read_calibrated w))%nat → ∃ s', loop_iteration w s = Ok s')
  ∧ ((length (read_calibrated w) < 2)%nat →
     current_mode (globals s) = MODE_LINE_FOLLOWING →
     line_calibrated (globals s) = true →
     collision_detected (globals s) = false →
     left_is_pressed w = false →
     right_is_pressed w = false →
     uart_read w = "" →
     loop_iteration w s = Raise IndexError).
Proof.
  split.
  - intros Hlen. unfold loop_iteration.
    destruct (check_collisions w (globals s)) as [stopped g1].
    set (r := serial_receive w g1 (rx_buffer s) (uart_read w)).
    assert (∃ g3,
      (if bool_decide (current_mode (rc_globals r) = MODE_LINE_FOLLOWING)
          && line_calibrated (rc_globals r)
          && negb (collision_detected (rc_globals r))
       then follow_line w (rc_globals r) else Ok (rc_globals r)) = Ok g3)
      as [g3 ->].
    { destruct (_ && _ && _); [|by eexists]. unfold follow_line.
      destruct (estimate_position_five (p (rc_globals r)) (read_calibrated w)
                  Hlen) as [l ->]. by eexists. }
    cbn [mbind result_bind].
    destruct (600 <=? counter s + 1); by eexists.
  - intros Hlen Hmode Hcal Hlatch Hl Hr Hrx.
    unfold loop_iteration, check_collisions, serial_receive.
    rewrite Hl, Hr, Hrx, Hlatch. cbn [orb truthy rc_globals].
    rewrite Hmode, Hcal, Hlatch.
    rewrite bool_decide_eq_true_2 by done. cbn [andb negb].
    unfold follow_line, estimate_position.
    destruct (read_calibrated w) as [|v0 [|v1 rest]]; cbn in Hlen; try lia;
      done.
Qed.

Lemma loop_iteration_faults_only_on_short_readings_witness :
  (∃ s', loop_iteration forward_arrives_bumped (boot released) = Ok s')
  ∧ loop_iteration no_reading (boot released) = Raise IndexError.
Proof.
  split.
  - apply (loop_iteration_faults_only_on_short_readings
             forward_arrives_bumped (boot released)).
    vm_compute. lia.
  - apply (loop_iteration_faults_only_on_short_readings no_reading
             (boot released)); try reflexivity.
    vm_compute. lia.
Defined.




Lemma serial_receive_buffer_without_newline w g rx_buffer data :
  contains LF rx_buffer = false →
  contains LF (rc_buffer (serial_receive w g rx_buffer data)) = false.
Proof.
  intros Hbuf. unfold serial_receive.
  destruct (truthy data); [|done].
  destruct (decode data); [|done].
  destruct (contains LF (rx_buffer +:+ a)) eqn:Hnl; [|done].
  cbn [rc_buffer]. destruct (dr_fault _); [done|].
  apply last_split_on_without.
Qed.

Lemma loop_iteration_buffer w s s' :
  loop_iteration w s = Ok s' →
  rx_buffer s'
  = rc_buffer (serial_receive w (check_collisions w (globals s)).2
                 (rx_buffer s) (uart_read w)).
Proof.
  unfold loop_iteration.
  destruct (check_collisions w (globals s)) as [stopped g1].
  destruct (if _ && _ && _ then _ else _) as [g3|e]; [|done].
  cbn [mbind result_bind].
  destruct (600 <=? counter s + 1); by intros [= <-].
Qed.

(** X16. The receive buffer never holds a newline between passes: after
    the boot and after any number of passes of the main loop it holds only
    the unfinished end of the received text, so a frame is dispatched in
    the pass in which its newline arrives. *)
Theorem rx_buffer_never_holds_newline w ws :
  match run_loop ws (boot w) with
  | Ok s => contains LF (rx_buffer s) = false
  | Raise _ => True
  end.
Proof.
  destruct (run_loop ws (boot w)) as [s|e] eqn:Hrun; [|done].
  assert (∀ s0, contains LF (rx_buffer s0) = false →
                run_loop ws s0 = Ok s → contains LF (rx_buffer s) = false)
    as Hkeep.
  { clear Hrun. induction ws as [|w1 ws IH]; intros s0 H0; cbn [run_loop].
    - by intros [= <-].
    - destruct (loop_iteration w1 s0) as [s1|e] eqn:H1; [|done].
      cbn [mbind result_bind]. apply IH.
      rewrite (loop_iteration_buffer _ _ _ H1).
      by apply serial_receive_buffer_without_newline. }
  apply (Hkeep (boot w)); [|done].
  unfold boot. by destruct (calibrate_line_sensors _ _).
Qed.

Lemma for_commands_responses w commands g :
  let r := for_commands w g commands in
  Forall (λ frame, endswith_char LF frame = true) (dr_written r)
  ∧ length (dr_dispatched r)
    = (length (dr_written r)
       + match dr_fault r with Some _ => 1 | None => 0 end)%nat.
Proof.
  revert g. induction commands as [|cmd rest IH]; intros g; [done|].
  cbn [for_commands]. destruct (truthy (strip cmd)); [|apply IH].
  destruct (process_command w g (strip cmd)) as [[response g']|e]; [|done].
  cbn [dr_written dr_dispatched dr_fault length].
  destruct (IH g') as [Hends Hlen]. split.
  - constructor; [apply endswith_char_append|done].
  - by rewrite Hlen.
Qed.

Lemma for_commands_answers w commands g :
  let r := for_commands w g commands in
  dr_written r
  = (λ response, response +:+ newline) <$> responses w g (dr_dispatched r)
  ∧ match dr_fault r with
    | None => length (dr_dispatched r) = length (dr_written r)
    | Some e =>
        ∃ frames frame,
          dr_dispatched r = frames ++ [frame]
          ∧ length frames = length (dr_written r)
          ∧ process_command w (dr_globals r) frame = Raise e
    end.
Proof.
  revert g. induction commands as [|cmd rest IH]; intros g; [done|].
  cbn [for_commands]. destruct (truthy (strip cmd)); [|apply IH].
  destruct (process_command w g (strip cmd)) as [[response g']|e] eqn:Hcmd.
  - cbn [dr_written dr_dispatched dr_fault dr_globals responses].
    rewrite Hcmd. destruct (IH g') as [Hwritten Hcount]. split.
    + by rewrite Hwritten.
    + destruct (dr_fault (for_commands w g' rest)) as [e|].
      * destruct Hcount as (frames & frame & -> & Hlen & Hraise).
        exists (strip cmd :: frames), frame.
        split; [done|]. split; [|done]. cbn [length]. by rewrite Hlen.
      * cbn [length]. by rewrite Hcount.
  - cbn [dr_written dr_dispatched dr_fault dr_globals responses].
    rewrite Hcmd. split; [done|]. by exists [], (strip cmd).
Qed.

(** X17. The serial block answers frame by frame.  Every frame it writes
    ends with a newline, and what it writes is, in order, the responses of
    [process_command] to the frames it dispatched, each followed by a
    newline, and nothing else.  When no fault occurs there are as many
    responses as dispatched frames.  When the block ends in a fault, either
    the received bytes did not decode and nothing was dispatched or written,
    or the last dispatched frame is the one that raised, and there is a
    response for each frame before it and none for it. *)
Theorem serial_receive_one_response_per_frame w g rx_buffer data :
  let r := serial_receive w g rx_buffer data in
  Forall (λ frame, endswith_char LF frame = true) (rc_written r)
  ∧ rc_written r
    = (λ response, response +:+ newline) <$> responses w g (rc_dispatched r)
  ∧ match rc_fault r with
    | None => length (rc_dispatched r) = length (rc_written r)
    | Some e =>
        (decode data = Raise e ∧ rc_dispatched r = [] ∧ rc_written r = [])
        ∨ (∃ frames frame,
             rc_dispatched r = frames ++ [frame]
             ∧ length frames = length (rc_written r)
             ∧ process_command w (rc_globals r) frame = Raise e)
    end.
Proof.
  unfold serial_receive.
  destruct (truthy data); [|done].
  destruct (decode data) as [new_data|e]; [|by do 2 (split; [done|]); left].
  destruct (contains LF _); [|done].
  cbn [rc_written rc_dispatched rc_fault rc_globals].
  destruct (for_commands_responses w
              (removelast (split_on LF (rx_buffer +:+ new_data))) g)
    as [Hends _].
  destruct (for_commands_answers w
              (removelast (split_on LF (rx_buffer +:+ new_data))) g)
    as [Hwritten Hcount].
  do 2 (split; [done|]).
  destruct (dr_fault _); [by right|done].
Qed.

(** *** Calibration, continued *)

(** X18. Where the calibration sequence leaves the motors.  When no driver
    call fails they are off at the end.  When call k of the 106 fails, the
    mode is STOPPED but the motors are as the calls before k left them:
    off only if the failing call is the first speed command of a spin
    (k = 0, 27 or 79), and otherwise still spinning the robot in place at
    the calibration speed, since nothing turns them off after the fault. *)
Theorem calibration_fault_leaves_motors_running w g :
  (fault_free (driver_fault w) 0 106 →
   motors (calibrate_line_sensors w g).2 = off)
  ∧ (∀ k msg, (k < 106)%nat → first_fault_at (driver_fault w) 0 k msg →
     let g' := (calibrate_line_sensors w g).2 in
     current_mode g' = MODE_STOPPED
     ∧ ((k = 0 ∨ k = 27 ∨ k = 79)%nat → motors g' = off)
     ∧ (k ≠ 0%nat → k ≠ 27%nat → k ≠ 79%nat → spinning (motors g'))).
Proof.
  destruct (calibration_sweep_runs (driver_fault w)
              {| hw_motors := off; hw_calls := 0 |}) as [Hok Hraise].
  rewrite sweep_effects_length in Hok, Hraise. split.
  - intros Hfree. unfold calibrate_line_sensors.
    cbn [motors with_motors with_mode]. by rewrite (Hok Hfree).
  - intros k msg Hk Hfault. unfold calibrate_line_sensors.
    cbn [motors with_motors with_mode].
    rewrite (Hraise k msg Hk Hfault).
    cbn [snd motors with_motors with_calibrated current_mode hw_motors].
    split; [done|]. by apply sweep_motors_at_fault.
Qed.

Lemma calibration_fault_leaves_motors_running_witness :
  motors (calibrate_line_sensors released following).2 = off
  ∧ current_mode (calibrate_line_sensors fault_at_30 following).2
    = MODE_STOPPED
  ∧ spinning (motors (calibrate_line_sensors fault_at_30 following).2).
Proof.
  destruct (calibration_fault_leaves_motors_running released following)
    as [Hok _].
  destruct (calibration_fault_leaves_motors_running fault_at_30 following)
    as [_ Hfault].
  split.
  - apply Hok. by intros j _.
  - destruct (Hfault 30%nat "EIO") as (Hmode & _ & Hspin); [lia| |].
    + split; [reflexivity|]. intros j Hj. cbn. case_decide; [lia|done].
    + split; [done|]. apply Hspin; lia.
Defined.

(** X19. A boot whose calibration fails still announces
    ROBOT_READY_AND_FOLLOWING, and nothing else, on the serial link; the
    loop is entered uncalibrated in mode STOPPED, LINE START is refused with
    ERROR:NOT_CALIBRATED, and a pass with no bump and nothing received
    changes nothing but the pass counter. *)
Theorem failed_boot_announces_ready_but_does_not_follow w k msg :
  (k < 106)%nat →
  first_fault_at (driver_fault w) 0 k msg →
  uart_written (boot w) = ["ROBOT_READY_AND_FOLLOWING" +:+ newline]
  ∧ line_calibrated (globals (boot w)) = false
  ∧ current_mode (globals (boot w)) = MODE_STOPPED
  ∧ (∀ w1, process_command w1 (globals (boot w)) "LINE START"
           = Ok ("ERROR:NOT_CALIBRATED", globals (boot w)))
  ∧ (∀ w1, left_is_pressed w1 = false →
           right_is_pressed w1 = false →
           uart_read w1 = "" →
           loop_iteration w1 (boot w)
           = Ok {| globals := globals (boot w); rx_buffer := "";
                   counter := 1; uart_written := uart_written (boot w) |}).
Proof.
  intros Hk Hfault. unfold boot.
  destruct (calibrate_line_sensors_fails w RobotNode.initial k msg Hk Hfault)
    as [mot ->].
  do 3 (split; [done|]). split.
  - intros w1. rewrite process_command_tokens.
    change (tokens "LINE START") with ["LINE"; "START"]. cbv beta iota.
    by destruct COMMANDS_at as (_ & _ & _ & _ & _ & _ & ->).
  - intros w1 Hl Hr Hrx.
    unfold loop_iteration, check_collisions, serial_receive.
    rewrite Hl, Hr, Hrx. reflexivity.
Qed.

Lemma failed_boot_announces_ready_but_does_not_follow_witness :
  uart_written (boot fault_at_30) = ["ROBOT_READY_AND_FOLLOWING" +:+ newline]
  ∧ line_calibrated (globals (boot fault_at_30)) = false
  ∧ current_mode (globals (boot fault_at_30)) = MODE_STOPPED
  ∧ (∀ w1, process_command w1 (globals (boot fault_at_30)) "LINE START"
           = Ok ("ERROR:NOT_CALIBRATED", globals (boot fault_at_30)))
  ∧ (∀ w1, left_is_pressed w1 = false →
           right_is_pressed w1 = false →
           uart_read w1 = "" →
           loop_iteration w1 (boot fault_at_30)
           = Ok {| globals := globals (boot fault_at_30); rx_buffer := "";
                   counter := 1;
                   uart_written := uart_written (boot fault_at_30) |}).
Proof.
  apply (failed_boot_announces_ready_but_does_not_follow fault_at_30 30%nat
           "EIO"); [lia|].
  split; [reflexivity|]. intros j Hj. cbn. case_decide; [lia|done].
Defined.

End RobotMore.

(** ** Further properties of the bridge node *)

Module BridgeMore.

Import BridgeNode BridgeSpec BridgeRun.

Lemma check_for_robot_response_radio_state pending g :
  is_connected (check_for_robot_response pending g).2 = is_connected g
  ∧ connections (check_for_robot_response pending g).2 = connections g
  ∧ uart_written (check_for_robot_response pending g).2 = uart_written g
  ∧ last_command (check_for_robot_response pending g).2 = last_command g.
Proof.
  unfold check_for_robot_response, connections.
  destruct (truthy pending); [|done].
  destruct (decode pending); [|done].
  cbn. by destruct (ble_service g), (is_connected g).
Qed.

Lemma loop_iteration_radio_state pending counter g :
  is_connected (loop_iteration pending counter g).2 = is_connected g
  ∧ connections (loop_iteration pending counter g).2 = connections g.
Proof.
  unfold loop_iteration.
  destruct (check_for_robot_response_radio_state pending g)
    as (Hc & Hs & _).
  destruct (check_for_robot_response pending g) as [received g1].
  cbn [snd] in Hc, Hs.
  destruct (_ =? 0); [|done]. cbn [is_connected].
  destruct (is_connected g1) eqn:H1; [|done].
  split; [done|]. rewrite <- Hs. unfold connections. cbn.
  by destruct (ble_service g1).
Qed.

Lemma connected_has_connection_connections g :
  connected_has_connection g ↔ (is_connected g = true → connections g ≠ ∅).
Proof.
  unfold connected_has_connection, connections. split.
  - intros H Hc. destruct (H Hc) as (self & -> & Hne). done.
  - intros H Hc. specialize (H Hc).
    destruct (ble_service g) as [self|]; [by exists self|done].
Qed.

Lemma irq_keeps_connected_has_connection ev g :
  connected_has_connection g → connected_has_connection (_irq ev g).
Proof.
  rewrite !connected_has_connection_connections.
  unfold _irq, connections. intros Hg.
  destruct (ble_service g) as [self|] eqn:Hservice;
    [|by rewrite Hservice].
  destruct ev as [h|h|h [] stored|h hd]; cbn; rewrite ?Hservice; try done.
  - intros _. set_solver.
  - unfold _send_to_robot. destruct (decode stored); cbn; rewrite ?Hservice.
    all: done.
Qed.

(** X20. The connected flag is never set without a connection: after any
    sequence of radio events and loop passes from the start of the bridge,
    is_connected implies that the bridge exists and that its connection set
    is not empty, so a relayed robot response always has a recipient. *)
Theorem connected_flag_implies_connection steps :
  connected_has_connection (run steps).2.
Proof.
  unfold run.
  assert (∀ b, connected_has_connection b.2 →
               connected_has_connection
                 (foldl (λ b st, do_step st b) b steps).2) as Hkeep.
  { induction steps as [|st steps IH]; intros b Hb; [done|].
    cbn [foldl]. apply IH. destruct st as [ev|pending]; cbn [do_step snd].
    - by apply irq_keeps_connected_has_connection.
    - apply connected_has_connection_connections.
      destruct (loop_iteration_radio_state pending b.1 b.2) as [-> ->].
      by apply connected_has_connection_connections. }
  apply Hkeep. by intros [=].
Qed.

(** X21. The converse fails by the way disconnects are handled: when one
    of several centrals disconnects, the connected flag is cleared although
    the others remain in the connection set, and from then on (until some
    central connects) robot responses are recorded but reach none of them:
    nothing is notified and the read value is not updated. *)
Theorem disconnect_of_one_central_silences_the_others g self (gone stays : Z)
    pending :
  ble_service g = Some self →
  stays ∈ _connections self →
  gone ≠ stays →
  let g1 := _irq (_IRQ_CENTRAL_DISCONNECT gone) g in
  is_connected g1 = false
  ∧ stays ∈ connections g1
  ∧ ble_service (check_for_robot_response pending g1).2 = ble_service g1
  ∧ notifications (check_for_robot_response pending g1).2 = notifications g.
Proof.
  intros Hservice Hstays Hne. unfold _irq. rewrite Hservice.
  cbv zeta. unfold connections, notifications, check_for_robot_response.
  cbn [ble_service is_connected _connections notified].
  rewrite Hservice. split; [done|]. split; [set_solver|].
  destruct (truthy pending); [|done].
  by destruct (decode pending).
Qed.

Lemma disconnect_of_one_central_silences_the_others_witness :
  let g1 := _irq (_IRQ_CENTRAL_DISCONNECT 3) two_centrals in
  is_connected g1 = false
  ∧ 7 ∈ connections g1
  ∧ ble_service (check_for_robot_response ("PONG" +:+ newline) g1).2
    = ble_service g1
  ∧ notifications (check_for_robot_response ("PONG" +:+ newline) g1).2
    = notifications two_centrals.
Proof.
  refine (disconnect_of_one_central_silences_the_others two_centrals
            {| _connections := {[7]} ∪ ({[3]} ∪ ∅);
               tx_value := "Robot Bridge Ready"; notified := [] |}
            3 7 ("PONG" +:+ newline) _ _ _);
    [reflexivity | by vm_compute | lia].
Defined.

(** X22. Connecting and then disconnecting a central that was not
    connected leaves the connection set, the cached read value and the
    notifications as they were; only the connected flag is cleared,
    whatever it was before. *)
Theorem connect_then_disconnect_restores_connections g self (h : Z) :
  ble_service g = Some self →
  h ∉ _connections self →
  let g2 := _irq (_IRQ_CENTRAL_DISCONNECT h) (_irq (_IRQ_CENTRAL_CONNECT h) g) in
  ble_service g2 = Some self
  ∧ is_connected g2 = false
  ∧ last_command g2 = last_command g
  ∧ last_response g2 = last_response g
  ∧ uart_written g2 = uart_written g.
Proof.
  intros Hservice Hfresh. unfold _irq. rewrite Hservice. cbn.
  repeat split. f_equal. destruct self as [conns tx ns]. cbn in *.
  f_equal. apply set_eq. intros x.
  rewrite elem_of_difference, elem_of_union, elem_of_singleton.
  split; [tauto|]. intros Hx. split; [tauto|]. by intros ->.
Qed.

Lemma connect_then_disconnect_restores_connections_witness :
  let g2 :=
    _irq (_IRQ_CENTRAL_DISCONNECT 5) (_irq (_IRQ_CENTRAL_CONNECT 5) two_centrals)
  in
  ble_service g2
  = Some {| _connections := {[7]} ∪ ({[3]} ∪ ∅);
            tx_value := "Robot Bridge Ready"; notified := [] |}
  ∧ is_connected g2 = false
  ∧ last_command g2 = last_command two_centrals
  ∧ last_response g2 = last_response two_centrals
  ∧ uart_written g2 = uart_written two_centrals.
Proof.
  refine (connect_then_disconnect_restores_connections two_centrals
            {| _connections := {[7]} ∪ ({[3]} ∪ ∅);
               tx_value := "Robot Bridge Ready"; notified := [] |} 5 _ _);
    [reflexivity | by vm_compute].
Defined.

(** X23. A command written by a central is passed on to the serial link as
    it is, terminated by a newline that is added only when missing, and
    recorded as the last command; the acknowledgement that names the
    stripped command becomes the read value and is notified to every
    connection.  A write whose bytes are not well-formed UTF-8 is dropped:
    nothing is sent, recorded or notified. *)
Theorem written_command_is_forwarded_newline_terminated g self (h : Z)
    (stored : string) :
  ble_service g = Some self →
  let g' := _irq (_IRQ_GATTS_WRITE h _handle_rx stored) g in
  let frame := if endswith_char LF stored then stored else stored +:+ newline in
  let ack := "Command '" +:+ strip stored +:+ "' sent to robot" in
  if utf8_check stored then
    uart_written g' = uart_written g ++ [frame]
    ∧ endswith_char LF frame = true
    ∧ last_command g' = stored
    ∧ last_response g' = last_response g
    ∧ is_connected g' = is_connected g
    ∧ ble_service g'
      = Some {| _connections := _connections self; tx_value := ack;
                notified := notified self ++ fan_out (_connections self) ack |}
  else g' = g.
Proof.
  intros Hservice. unfold _irq, decode. rewrite Hservice.
  destruct (utf8_check stored); [|done].
  cbv zeta. unfold _send_to_robot.
  destruct (endswith_char LF stored) eqn:Hnl;
    cbn [negb uart_written last_command last_response is_connected
         ble_service]; rewrite ?Hservice; cbn [fmap option_fmap option_map].
  - done.
  - unfold newline. rewrite endswith_char_append.
    by rewrite (strip_append_space LF stored).
Qed.

Lemma written_command_is_forwarded_newline_terminated_witness :
  let g' := _irq (_IRQ_GATTS_WRITE 3 _handle_rx " forward") two_centrals in
  let ack := "Command 'forward' sent to robot" in
  uart_written g' = uart_written two_centrals ++ [" forward" +:+ newline]
  ∧ endswith_char LF (" forward" +:+ newline) = true
  ∧ last_command g' = " forward"
  ∧ last_response g' = last_response two_centrals
  ∧ is_connected g' = is_connected two_centrals
  ∧ ble_service g'
    = Some {| _connections := {[7]} ∪ ({[3]} ∪ ∅); tx_value := ack;
              notified := [] ++ fan_out ({[7]} ∪ ({[3]} ∪ ∅)) ack |}.
Proof.
  refine (written_command_is_forwarded_newline_terminated two_centrals
            {| _connections := {[7]} ∪ ({[3]} ∪ ∅);
               tx_value := "Robot Bridge Ready"; notified := [] |}
            3 " forward" _).
  reflexivity.
Defined.

(** X24. Each side keeps to its own variables: a pass of the main loop
    never changes the connected flag, the connection set or the last
    command, which the radio callback writes, and no radio event changes
    the last response, which the loop writes, nor the pass counter. *)
Theorem loop_and_callback_write_disjoint_variables pending counter ev g :
  let after_pass := (loop_iteration pending counter g).2 in
  is_connected after_pass = is_connected g
  ∧ connections after_pass = connections g
  ∧ last_command after_pass = last_command g
  ∧ last_response (_irq ev g) = last_response g.
Proof.
  destruct (loop_iteration_radio_state pending counter g) as [Hc Hs].
  split; [done|]. split; [done|]. split.
  - unfold loop_iteration.
    destruct (check_for_robot_response_radio_state pending g)
      as (_ & _ & _ & Hl).
    destruct (check_for_robot_response pending g) as [received g1].
    cbn [snd] in Hl |- *.
    destruct (_ =? 0); [|done]. cbn [is_connected].
    by destruct (is_connected g1).
  - unfold _irq. destruct (ble_service g) as [self|]; [|done].
    destruct ev as [h|h|h [] stored|h hd]; try done.
    unfold _send_to_robot. by destruct (decode stored).
Qed.

(** X25. An update of the read characteristic notifies every connection
    exactly once: the notifications it adds all carry the new value, go to
    pairwise distinct connections, to all those of the connection set and
    to no other, and the value becomes the cached read value. *)
Theorem update_tx_notifies_each_connection_once self (new_value : string) :
  let self' := update_tx self new_value in
  ∃ added,
    notified self' = notified self ++ added
    ∧ NoDup (added.*1)
    ∧ (∀ conn_handle, conn_handle ∈ added.*1 ↔ conn_handle ∈ _connections self)
    ∧ Forall (λ data, data = new_value) (added.*2)
    ∧ length added = size (_connections self)
    ∧ tx_value self' = new_value
    ∧ _connections self' = _connections self.
Proof.
  exists (fan_out (_connections self) new_value). unfold fan_out.
  assert (((λ conn_handle : Z, (conn_handle, new_value))
             <$> elements (_connections self)).*1
          = elements (_connections self)) as Hfst.
  { rewrite <- list_fmap_compose. apply list_fmap_id. }
  split; [done|]. rewrite Hfst. split; [apply NoDup_elements|].
  split; [intros conn_handle; apply elem_of_elements|].
  split.
  - rewrite <- list_fmap_compose. apply Forall_fmap.
    by apply Forall_true.
  - by rewrite length_fmap.
Qed.

End BridgeMore.

(** ** The two nodes together *)

Module LinkMore.

Import BridgeRun RobotSpec RobotProperties.

(** *** Plain text *)

Lemma plain_cons c s :
  plain (String c s) = true →
  (Ascii.N_of_ascii c <? 128)%N = true ∧ Ascii.is_space c = false
  ∧ toupper c = c ∧ plain s = true.
Proof.
  cbn [plain]. rewrite !andb_true_iff, negb_true_iff, Ascii.eqb_eq. tauto.
Qed.

Lemma plain_append a b :
  plain a = true → plain b = true → plain (a +:+ b) = true.
Proof.
  intros Ha Hb. induction a as [|c a IH]; [done|].
  rewrite append_cons. cbn [plain] in *.
  apply andb_true_iff in Ha as [-> Ha]. by rewrite IH.
Qed.

Lemma plain_upper s : plain s = true → upper s = s.
Proof.
  induction s as [|c s IH]; [done|]. intros (_ & _ & Hc & Hs)%plain_cons.
  cbn [upper]. by rewrite Hc, IH.
Qed.

Lemma upper_append a b : upper (a +:+ b) = upper a +:+ upper b.
Proof.
  induction a as [|c a IH]; [done|].
  rewrite append_cons. cbn [upper]. by rewrite IH, append_cons.
Qed.

Lemma plain_contains_space c s :
  Ascii.is_space c = true → plain s = true → contains c s = false.
Proof.
  intros Hc. induction s as [|x s IH]; [done|].
  intros (_ & Hx & _ & Hs)%plain_cons. cbn [contains]. rewrite IH by done.
  destruct (Ascii.eqb_spec x c) as [->|]; [congruence|done].
Qed.

Lemma plain_utf8 s :
  plain s = true → utf8_scan 0 s = Some 0%N.
Proof.
  induction s as [|c s IH]; [done|]. intros (Hc & _ & _ & Hs)%plain_cons.
  cbn [utf8_scan]. unfold utf8_step. by rewrite Hc, IH.
Qed.

Lemma plain_utf8_check s : plain s = true → utf8_check s = true.
Proof. intros Hs. unfold utf8_check. by rewrite plain_utf8. Qed.

Lemma plain_rstrip s : plain s = true → rstrip s = s.
Proof.
  induction s as [|c s IH]; [done|]. intros (_ & Hc & _ & Hs)%plain_cons.
  cbn [rstrip]. rewrite IH by done. destruct s; [by rewrite Hc|done].
Qed.

Lemma plain_lstrip s : plain s = true → lstrip s = s.
Proof.
  destruct s as [|c s]; [done|]. intros (_ & Hc & _ & _)%plain_cons.
  cbn [lstrip]. by rewrite Hc.
Qed.

Lemma rstrip_append_kept a b :
  rstrip b = b → b ≠ "" → rstrip (a +:+ b) = a +:+ b.
Proof.
  intros Hb Hne. induction a as [|c a IH]; [done|].
  rewrite append_cons. cbn [rstrip]. rewrite IH.
  destruct (a +:+ b) eqn:Hab; [|done]. by destruct a, b.
Qed.

Lemma words_go_plain acc s :
  plain s = true →
  String.words_go (Some acc) s = [String.rev_app acc s].
Proof.
  revert acc. induction s as [|c s IH]; intros acc; [done|].
  intros (_ & Hc & _ & Hs)%plain_cons.
  cbn [String.words_go]. rewrite Hc. cbn [from_option].
  by rewrite IH.
Qed.

Lemma words_go_plain_then_space acc a rest :
  plain a = true →
  String.words_go (Some acc) (a +:+ String " " rest)
  = String.rev_app acc a :: String.words_go None rest.
Proof.
  revert acc. induction a as [|c a IH]; intros acc; [done|].
  intros (_ & Hc & _ & Ha)%plain_cons.
  rewrite append_cons. cbn [String.words_go]. rewrite Hc. cbn [from_option].
  by rewrite IH.
Qed.

(** The tokens of a plain command name followed by one space and a plain
    parameter. *)
Lemma tokens_plain_pair c1 a c2 b :
  plain (String c1 a) = true →
  plain (String c2 b) = true →
  strip (String c1 a +:+ String " " (String c2 b))
    = String c1 a +:+ String " " (String c2 b)
  ∧ tokens (String c1 a +:+ String " " (String c2 b))
    = [String c1 a; String c2 b].
Proof.
  intros Ha Hb.
  assert (strip (String c1 a +:+ String " " (String c2 b))
          = String c1 a +:+ String " " (String c2 b)) as Hstrip.
  { unfold strip.
    destruct (plain_cons _ _ Ha) as (_ & Hc1 & _ & _).
    rewrite append_cons. cbn [lstrip]. rewrite Hc1.
    rewrite <- append_cons.
    change (String " " (String c2 b)) with (" " +:+ String c2 b).
    rewrite <- append_assoc.
    apply rstrip_append_kept; [by apply plain_rstrip|done]. }
  split; [done|]. unfold tokens. rewrite Hstrip.
  assert (upper (String c1 a +:+ String " " (String c2 b))
          = String c1 a +:+ String " " (String c2 b)) as ->.
  { rewrite upper_append, (plain_upper _ Ha).
    change (upper (String " " (String c2 b)))
      with (String " " (upper (String c2 b))).
    by rewrite (plain_upper _ Hb). }
  unfold split, String.words.
  destruct (plain_cons _ _ Ha) as (_ & Hc1 & _ & Ha').
  destruct (plain_cons _ _ Hb) as (_ & Hc2 & _ & Hb').
  rewrite append_cons. cbn [String.words_go]. rewrite Hc1. cbn [from_option].
  rewrite words_go_plain_then_space by done.
  cbn [String.words_go]. rewrite Hc2. cbn [from_option].
  by rewrite words_go_plain.
Qed.


Lemma plain_digits d : plain (NilEmpty.string_of_uint d) = true.
Proof. induction d; cbn [NilEmpty.string_of_uint plain]; by rewrite ?IHd. Qed.

Lemma str_int_plain n :
  0 ≤ n → ∃ c s, str_int n = String c s ∧ plain (String c s) = true.
Proof.
  intros Hn. unfold str_int.
  destruct n as [|q|q]; [by exists "0"%char, ""| |lia].
  cbn [Z.to_int NilZero.string_of_int].
  destruct (Pos.to_uint q) as [|d|d|d|d|d|d|d|d|d|d];
    [by exists "0"%char, ""|..];
    cbn [NilZero.string_of_uint NilEmpty.string_of_uint];
    eexists _, _; (split; [reflexivity|]);
    cbn [plain]; by rewrite plain_digits.
Qed.

Lemma endswith_char_contains c s :
  endswith_char c s = true → contains c s = true.
Proof.
  induction s as [|x s IH]; [done|]. cbn [endswith_char contains].
  destruct s as [|y s].
  - intros ->. done.
  - intros Hs. rewrite IH by done. apply orb_true_r.
Qed.

(** The serial block of the robot on exactly one complete frame. *)
Lemma serial_receive_complete_frame w g frame :
  contains LF frame = false →
  utf8_check frame = true →
  RobotNode.serial_receive w g "" (frame +:+ newline)
  = let r := RobotNode.for_commands w g [frame] in
    {| RobotNode.rc_globals := RobotNode.dr_globals r;
       RobotNode.rc_buffer := "";
       RobotNode.rc_written := RobotNode.dr_written r;
       RobotNode.rc_dispatched := RobotNode.dr_dispatched r;
       RobotNode.rc_fault := RobotNode.dr_fault r |}.
Proof.
  intros Hnl Hutf. unfold RobotNode.serial_receive, decode.
  rewrite truthy_append_r, utf8_check_newline by done.
  rewrite append_empty_l, contains_append. unfold newline at 1.
  cbn [contains]. rewrite Ascii.eqb_refl, orb_true_r.
  unfold newline. rewrite split_on_frame by done.
  cbn [split_on removelast List.last]. cbv zeta. f_equal.
  by destruct (RobotNode.dr_fault _).
Qed.

(** *** From the central to the dispatcher and back *)

(** X26. A one-line command written by a central reaches the dispatcher of
    the robot as it was written: the bridge puts one frame on the serial
    link, and the serial block of the robot, reading that frame into an
    empty buffer, dispatches the stripped command once and does with it
    exactly what [process_command] does with the written text: it writes
    the response and keeps the new state, or, when the dispatch raises,
    writes nothing and keeps the old state. *)
Theorem central_command_reaches_dispatcher (gb : BridgeNode.Globals)
    (self : BridgeNode.BLEUARTBridge) (h : Z) (message : string)
    (w : RobotNode.World) (gr : RobotNode.Globals) :
  BridgeNode.ble_service gb = Some self →
  utf8_check message = true →
  contains LF message = false →
  truthy (strip message) = true →
  let gb' :=
    BridgeNode._irq (BridgeNode._IRQ_GATTS_WRITE h BridgeNode._handle_rx message)
      gb in
  let frame := message +:+ newline in
  let r := RobotNode.serial_receive w gr "" frame in
  BridgeNode.uart_written gb' = BridgeNode.uart_written gb ++ [frame]
  ∧ RobotNode.rc_dispatched r = [strip message]
  ∧ RobotNode.rc_buffer r = ""
  ∧ match RobotNode.process_command w gr message with
    | Ok (response, gr') =>
        RobotNode.rc_written r = [response +:+ newline]
        ∧ RobotNode.rc_globals r = gr'
        ∧ RobotNode.rc_fault r = None
    | Raise e =>
        RobotNode.rc_written r = []
        ∧ RobotNode.rc_globals r = gr
        ∧ RobotNode.rc_fault r = Some e
    end.
Proof.
  intros Hservice Hutf Hnl Hcmd gb' frame r. split.
  - unfold gb', BridgeNode._irq, decode. rewrite Hservice, Hutf.
    unfold BridgeNode._send_to_robot.
    destruct (endswith_char LF message) eqn:Hends.
    + apply endswith_char_contains in Hends. congruence.
    + done.
  - unfold r, frame. rewrite serial_receive_complete_frame by done.
    cbn [RobotNode.for_commands]. rewrite Hcmd.
    assert (RobotNode.process_command w gr (strip message)
            = RobotNode.process_command w gr message) as ->.
    { rewrite !process_command_tokens. unfold tokens.
      by rewrite strip_idemp. }
    by destruct (RobotNode.process_command w gr message) as [[response gr']|e].
Qed.

Lemma central_command_reaches_dispatcher_witness :
  let gb' :=
    BridgeNode._irq
      (BridgeNode._IRQ_GATTS_WRITE 3 BridgeNode._handle_rx "speed 2")
      BridgeSpec.two_centrals in
  let frame := "speed 2" +:+ newline in
  let r := RobotNode.serial_receive released following "" frame in
  BridgeNode.uart_written gb'
  = BridgeNode.uart_written BridgeSpec.two_centrals ++ [frame]
  ∧ RobotNode.rc_dispatched r = [strip "speed 2"]
  ∧ RobotNode.rc_buffer r = ""
  ∧ RobotNode.rc_written r = ["SPEED_SET:2 (1250)" +:+ newline]
  ∧ RobotNode.rc_globals r = RobotNode.with_speed 1250 following
  ∧ RobotNode.rc_fault r = None.
Proof.
  refine (central_command_reaches_dispatcher BridgeSpec.two_centrals
            {| BridgeNode._connections := {[7]} ∪ ({[3]} ∪ ∅);
               BridgeNode.tx_value := "Robot Bridge Ready";
               BridgeNode.notified := [] |}
            3 "speed 2" released following _ _ _ _); reflexivity.
Defined.


Lemma plain_strip s : plain s = true → strip s = s.
Proof.
  intros Hs. unfold strip. by rewrite plain_lstrip, plain_rstrip.
Qed.

(** X27. The heartbeat handshake closes.  In a pass of the bridge loop
    that brings the counter to a multiple of 30, the bridge writes the frame
    HEARTBEAT n with n a thirtieth of the counter; the serial block of the
    robot, reading that frame into an empty buffer, answers HEARTBEAT_ACK:n
    with the same number and leaves the state of the robot as it was; and
    the bridge, reading that answer, records it as the last response. *)
Theorem heartbeat_is_acknowledged_with_its_number (pending : string)
    (counter : Z) (gb gb2 : BridgeNode.Globals)
    (w : RobotNode.World) (gr : RobotNode.Globals) :
  0 ≤ counter →
  (counter + 1) `mod` 30 = 0 →
  let n := (counter + 1) `div` 30 in
  let frame := "HEARTBEAT " +:+ str_int n +:+ newline in
  let answer := "HEARTBEAT_ACK:" +:+ str_int n in
  BridgeNode.uart_written (loop_iteration pending counter gb).2
  = BridgeNode.uart_written gb ++ [frame]
  ∧ RobotNode.serial_receive w gr "" frame
    = {| RobotNode.rc_globals := gr; RobotNode.rc_buffer := "";
         RobotNode.rc_written := [answer +:+ newline];
         RobotNode.rc_dispatched := ["HEARTBEAT " +:+ str_int n];
         RobotNode.rc_fault := None |}
  ∧ BridgeNode.last_response
      (BridgeNode.check_for_robot_response (answer +:+ newline) gb2).2
    = answer.
Proof.
  intros Hcounter Hmod n frame answer.
  destruct (str_int_plain n) as (c & s & Hstr & Hplain).
  { apply Z.div_pos; lia. }
  split; [|split].
  - unfold loop_iteration.
    destruct (BridgeMore.check_for_robot_response_radio_state pending gb)
      as (_ & _ & Hwritten & _).
    destruct (BridgeNode.check_for_robot_response pending gb)
      as [received g1]. cbn [snd] in Hwritten.
    rewrite Hmod. cbn [Z.eqb BridgeNode.is_connected]. fold n.
    rewrite <- Hwritten. by destruct (BridgeNode.is_connected g1).
  - unfold frame. rewrite Hstr, <- append_assoc.
    change ("HEARTBEAT " +:+ String c s)
      with ("HEARTBEAT" +:+ String " " (String c s)).
    destruct (tokens_plain_pair "H" "EARTBEAT" c s eq_refl Hplain)
      as [Hstrip Htokens].
    rewrite serial_receive_complete_frame.
    + cbn [RobotNode.for_commands]. rewrite Hstrip.
      rewrite process_command_tokens, Htokens.
      destruct RobotMore.COMMANDS_at as (_ & _ & _ & _ & _ & -> & _).
      cbn [take RobotNode.call]. unfold RobotNode.cmd_heartbeat.
      cbn [truthy String.append]. unfold answer. by rewrite Hstr.
    + rewrite contains_append.
      change (contains LF (String " " (String c s)))
        with (contains LF (String c s)).
      by rewrite (plain_contains_space LF (String c s)).
    + apply (utf8_check_append "HEARTBEAT"); [done|].
      apply (utf8_check_append " "); [done|].
      by apply plain_utf8_check.
  - assert (plain answer = true) as Hanswer.
    { unfold answer. rewrite Hstr. by apply (plain_append "HEARTBEAT_ACK:"). }
    unfold BridgeNode.check_for_robot_response, decode.
    rewrite truthy_append_r by done.
    rewrite utf8_check_newline by (by apply plain_utf8_check).
    unfold newline. rewrite (strip_append_space LF answer) by done.
    rewrite plain_strip by done.
    by destruct (BridgeNode.ble_service gb2).
Qed.

Lemma heartbeat_is_acknowledged_with_its_number_witness :
  let frame := "HEARTBEAT 2" +:+ newline in
  let answer := "HEARTBEAT_ACK:2" in
  BridgeNode.uart_written
    (loop_iteration "" 59 BridgeSpec.two_centrals).2
  = BridgeNode.uart_written BridgeSpec.two_centrals ++ [frame]
  ∧ RobotNode.serial_receive released following "" frame
    = {| RobotNode.rc_globals := following; RobotNode.rc_buffer := "";
         RobotNode.rc_written := [answer +:+ newline];
         RobotNode.rc_dispatched := ["HEARTBEAT 2"];
         RobotNode.rc_fault := None |}
  ∧ BridgeNode.last_response
      (BridgeNode.check_for_robot_response (answer +:+ newline)
         BridgeNode.initial).2
    = answer.
Proof.
  refine (heartbeat_is_acknowledged_with_its_number "" 59
            BridgeSpec.two_centrals BridgeNode.initial released following
            _ _); [lia | reflexivity].
Defined.

End LinkMore.
